(** * fitshead: printing the header(s) of a FITS file

    A shallow embedding of [astropy/io/fits/scripts/fitshead.py] and the
    properties of its key selection, its two formatters and its command
    line loop.

    Conventions of the embedding.
    - Python text is a [string].  The script targets Python 2 (it reads
      [e.message]); the implicit coercions of that version between byte
      and unicode text are the identity on ASCII text, which is what a
      command line and the keywords of a FITS header hold, and are not
      modelled.
    - An exception is a value of [exn]; a computation that may raise
      returns a [result].  [try]/[except] is a match on the exception.
    - The FITS decoder ([fits.open], [HDUList], [Header]), [os.linesep] and
      the logger are collaborators of the script: a container handle is a
      record of the methods the script calls on it. *)

From Stdlib Require Import String Ascii List ZArith Lia Bool Arith.
From Stdlib Require Import DecimalString DecimalZ.
Import ListNotations.

Local Open Scope list_scope.
Local Open Scope string_scope.

(** ** Exceptions and results *)

(** The exception classes the script raises, catches or lets through.
    [FormattingException] is the script's own class (lines 36-37); the
    others are Python's.  Only the payload the script reads is kept:
    the [message] of the errors it re-raises. *)
Inductive exn : Type :=
| FormattingException (message : string)
| ValueError
| TypeError
| IndexError
| KeyError (message : string)
| IOError (message : string)
| OtherError (name : string).

Inductive result (A : Type) : Type :=
| Ok (a : A)
| Raise (e : exn).

Arguments Ok {A} a.
Arguments Raise {A} e.

Definition bind {A B : Type} (c : result A) (k : A -> result B) : result B :=
  match c with
  | Ok a => k a
  | Raise e => Raise e
  end.

Notation "x <- c ;; k" := (bind c (fun x => k))
  (at level 61, c at next level, right associativity).

(** ** Python's text primitives *)

Module Py.

Definition comma : ascii := ","%char.

(** [s.split(sep)] for a one-character separator: the pieces between
    the separators, at least one piece. *)
Fixpoint split (sep : ascii) (s : string) : list string :=
  match s with
  | EmptyString => [EmptyString]
  | String c rest =>
      if Ascii.eqb c sep then EmptyString :: split sep rest
      else match split sep rest with
           | [] => [String c EmptyString]
           | p :: ps => String c p :: ps
           end
  end.

(** [sep.join(parts)]. *)
Definition join (sep : string) (parts : list string) : string :=
  String.concat sep parts.

(** [parts[0:-1]] and [parts[-1]] on a non-empty list. *)
Definition but_last (parts : list string) : list string := removelast parts.
Definition last_part (parts : list string) : string := last parts EmptyString.

(** Characters [str.strip()] and [int()] treat as white space. *)
Definition is_space (c : ascii) : bool :=
  let n := nat_of_ascii c in
  ((n =? 32) || ((9 <=? n) && (n <=? 13)))%nat.

Definition is_digit (c : ascii) : bool :=
  let n := nat_of_ascii c in ((48 <=? n) && (n <=? 57))%nat.

Definition digit_val (c : ascii) : Z := Z.of_nat (nat_of_ascii c) - 48.

Fixpoint lstrip (s : string) : string :=
  match s with
  | String c rest => if is_space c then lstrip rest else s
  | EmptyString => EmptyString
  end.

(** Reads a non-empty run of decimal digits followed only by white
    space; [acc] is the value of the digits read so far and [seen]
    tells whether there was one. *)
Fixpoint digits (seen : bool) (acc : Z) (s : string) : option Z :=
  match s with
  | EmptyString => if seen then Some acc else None
  | String c rest =>
      if is_digit c then digits true (10 * acc + digit_val c) rest
      else if seen && is_space c
           then match lstrip rest with
                | EmptyString => Some acc
                | _ => None
                end
           else None
  end.

(** [int(s)] on text, base 10: optional surrounding white space, an
    optional sign, one or more decimal digits.  [None] stands for the
    [ValueError] that [int] raises on anything else.  (The underscores
    that Python 3.6 and later allow between digits are not read.) *)
Definition int (s : string) : option Z :=
  match lstrip s with
  | String "-" rest => option_map Z.opp (digits false 0 rest)
  | String "+" rest => digits false 0 rest
  | t => digits false 0 t
  end.

(** [str(n)] for an integer. *)
Definition str_int (n : Z) : string := NilZero.string_of_int (Z.to_int n).

(** [sys.maxint] of a 64-bit build: integers beyond it are [long]s,
    whose [repr] carries the suffix [L]. *)
Definition maxint : Z := 9223372036854775807.

Definition repr_int (n : Z) : string :=
  if (n <=? maxint)%Z && (- maxint - 1 <=? n)%Z then str_int n
  else str_int n ++ "L".

Definition hex_digit (n : nat) : ascii :=
  if (n <? 10)%nat then ascii_of_nat (48 + n) else ascii_of_nat (87 + n).

Definition contains_char (c : ascii) (s : string) : bool :=
  existsb (Ascii.eqb c) (list_ascii_of_string s).

(** The body of [repr] of a byte string, for the chosen quote. *)
Fixpoint repr_body (quote : ascii) (s : string) : string :=
  match s with
  | EmptyString => EmptyString
  | String c rest =>
      let n := nat_of_ascii c in
      (if Ascii.eqb c quote || Ascii.eqb c "\"%char
       then String "\"%char (String c EmptyString)
       else if (n =? 9)%nat then "\t"
       else if (n =? 10)%nat then "\n"
       else if (n =? 13)%nat then "\r"
       else if ((n <? 32) || (127 <=? n))%nat
            then String "\"%char (String "x"%char
                   (String (hex_digit (n / 16))
                      (String (hex_digit (n mod 16)) EmptyString)))
            else String c EmptyString)
      ++ repr_body quote rest
  end.

Definition squote : ascii := "'"%char.
Definition dquote : ascii := ascii_of_nat 34.

(** [repr(s)] of a byte string: single quotes, unless the text holds a
    single quote and no double quote. *)
Definition repr_str (s : string) : string :=
  let quote :=
    if contains_char squote s && negb (contains_char dquote s)
    then dquote else squote in
  String quote (repr_body quote s) ++ String quote EmptyString.

End Py.

(** ** The decoder's objects

    [astropy.io.fits] is used through four things: [fits.open], the
    container [HDUList] ([len], indexing and [filename()]), the [header]
    of a unit and three methods of a [Header]. *)

Module Fits.

(** The value of a header card.  A float is kept as the text the JSON
    encoder writes for it; [VOther] is a value that encoder has no
    rendering for (a complex number, the [Undefined] of a card without
    value). *)
Inductive Value : Type :=
| VStr (s : string)
| VBool (b : bool)
| VInt (n : Z)
| VFloat (text : string)
| VOther.

(** A header: its cards in file order, and the decoder's own rendering
    [tostring(sep, padding)]. *)
Record Header : Type := {
  cards : list (string * Value);
  tostring : string -> bool -> string
}.

Definition keys (hdr : Header) : list string := map fst (cards hdr).
Definition values (hdr : Header) : list Value := map snd (cards hdr).

Record HDU : Type := { header : Header }.

(** What [hdulist[key]] is asked with: a number, a name, or a pair of a
    name and a version. *)
Inductive Key : Type :=
| KInt (n : Z)
| KName (name : string)
| KPair (extname : string) (extver : Z).

(** An opened container. *)
Record HDUList : Type := {
  filename : string;
  len : nat;
  getitem : Key -> result HDU
}.

End Fits.

Import Fits.

(** ** Effects of the command line program

    What [main] does to the outside is kept as the sequence of its
    effects, oldest first: a [fits.open] that succeeded, a [print], a
    [log.error].  The script has no call that releases a container; when
    the runtime reclaims one is not part of this model. *)
Inductive event : Type :=
| EvOpen (name : string)
| EvPrint (text : string)
| EvLogError (message : string).

Definition io (A : Type) : Type := list event -> list event * result A.

Definition io_ret {A : Type} (a : A) : io A := fun t => (t, Ok a).

Definition io_bind {A B : Type} (c : io A) (k : A -> io B) : io B :=
  fun t => match c t with
           | (t', Ok a) => k a t'
           | (t', Raise e) => (t', Raise e)
           end.

Definition lift {A : Type} (r : result A) : io A := fun t => (t, r).

Definition emit (e : event) : io unit := fun t => ((t ++ [e])%list, Ok tt).

Notation "x <-- c ;; k" := (io_bind c (fun x => k))
  (at level 61, c at next level, right associativity).

(** What has been printed and what has been logged in a sequence of
    effects. *)
Fixpoint stdout (t : list event) : list string :=
  match t with
  | [] => []
  | EvPrint s :: r => s :: stdout r
  | _ :: r => stdout r
  end.

Fixpoint errors (t : list event) : list string :=
  match t with
  | [] => []
  | EvLogError m :: r => m :: errors r
  | _ :: r => errors r
  end.

(** ** The JSON encoder

    [json.dumps(obj, indent=n)] of the standard library, on the objects
    the script hands to it: text, integers, card values, lists (a tuple
    is written as a list) and insertion-ordered dictionaries with text
    keys. *)

Module Json.

#[warnings="-register-all"]
Inductive obj : Type :=
| PStr (s : string)
| PInt (n : Z)
| PBool (b : bool)
| PFloat (text : string)
| PUnsupported
| PList (items : list obj)
| PDict (items : list (string * obj)).

Definition of_value (v : Value) : obj :=
  match v with
  | VStr s => PStr s
  | VBool b => PBool b
  | VInt n => PInt n
  | VFloat t => PFloat t
  | VOther => PUnsupported
  end.

(** A key as the encoder sees it: the pair is a tuple. *)
Definition of_key (k : Key) : obj :=
  match k with
  | KInt n => PInt n
  | KName s => PStr s
  | KPair name ver => PList [PStr name; PInt ver]
  end.

Definition LF : ascii := ascii_of_nat 10.
Definition backslash : string := "\".

(** One character of text inside a JSON string ([ensure_ascii]). *)
Definition escape_char (c : ascii) : string :=
  let n := nat_of_ascii c in
  if (n =? 34)%nat then backslash ++ String c EmptyString
  else if (n =? 92)%nat then backslash ++ backslash
  else if (n =? 8)%nat then "\b"
  else if (n =? 12)%nat then "\f"
  else if (n =? 10)%nat then "\n"
  else if (n =? 13)%nat then "\r"
  else if (n =? 9)%nat then "\t"
  else if ((n <? 32) || (126 <? n))%nat
       then "\u00" ++ String (Py.hex_digit (n / 16))
                        (String (Py.hex_digit (n mod 16)) EmptyString)
       else String c EmptyString.

Fixpoint escape (s : string) : string :=
  match s with
  | EmptyString => EmptyString
  | String c rest => escape_char c ++ escape rest
  end.

Definition encode_basestring (s : string) : string :=
  String Py.dquote (escape s) ++ String Py.dquote EmptyString.

Definition spaces (n : nat) : string :=
  string_of_list_ascii (repeat " "%char n).

(** The line break and the indentation of nesting depth [level]. *)
Definition newline_indent (indent level : nat) : string :=
  String LF (spaces (indent * level)).

(** The separators of the encoder the script's Python has: with an
    indentation each item's comma is followed by a blank and then by
    the line break. *)
Definition item_separator : string := ", ".
Definition key_separator : string := ": ".

Definition bracket (opening closing : string) (indent level : nat)
    (chunks : list string) : string :=
  opening ++ newline_indent indent (S level)
    ++ String.concat (item_separator ++ newline_indent indent (S level)) chunks
    ++ newline_indent indent level ++ closing.

Fixpoint encode (indent level : nat) (o : obj) {struct o} : result string :=
  match o with
  | PStr s => Ok (encode_basestring s)
  | PInt n => Ok (Py.str_int n)
  | PBool true => Ok "true"
  | PBool false => Ok "false"
  | PFloat t => Ok t
  | PUnsupported => Raise TypeError
  | PList [] => Ok "[]"
  | PList items =>
      chunks <- (fix each (l : list obj) : result (list string) :=
                   match l with
                   | [] => Ok []
                   | x :: r =>
                       c <- encode indent (S level) x ;;
                       cs <- each r ;;
                       Ok (c :: cs)
                   end) items ;;
      Ok (bracket "[" "]" indent level chunks)
  | PDict [] => Ok "{}"
  | PDict items =>
      chunks <- (fix each (l : list (string * obj)) : result (list string) :=
                   match l with
                   | [] => Ok []
                   | (k, v) :: r =>
                       c <- encode indent (S level) v ;;
                       cs <- each r ;;
                       Ok ((encode_basestring k ++ key_separator ++ c) :: cs)
                   end) items ;;
      Ok (bracket "{" "}" indent level chunks)
  end.

Definition dumps (o : obj) (indent : nat) : result string :=
  encode indent 0 o.

(** ** Insertion-ordered dictionaries ([collections.OrderedDict]) *)

(** [d[k] = v]: a key already present keeps its place and takes the new
    value; a new key goes to the end. *)
Fixpoint setitem {V : Type} (k : string) (v : V) (d : list (string * V))
    : list (string * V) :=
  match d with
  | [] => [(k, v)]
  | (k', v') :: r =>
      if String.eqb k k' then (k, v) :: r else (k', v') :: setitem k v r
  end.

(** [OrderedDict(pairs)]: the pairs are stored one after the other. *)
Definition odict {V : Type} (pairs : list (string * V)) : list (string * V) :=
  fold_left (fun d kv => setitem (fst kv) (snd kv) d) pairs [].

Fixpoint lookup {V : Type} (k : string) (d : list (string * V)) : option V :=
  match d with
  | [] => None
  | (k', v) :: r => if String.eqb k k' then Some v else lookup k r
  end.

(** [d[k].append(x)] where [d[k]] is a list. *)
Fixpoint append_at (k : string) (x : obj) (d : list (string * obj))
    : list (string * obj) :=
  match d with
  | [] => []
  | (k', v) :: r =>
      if String.eqb k k'
      then (k', match v with PList l => PList (l ++ [x])%list | _ => v end) :: r
      else (k', v) :: append_at k x r
  end.

End Json.

Import Json.

(** ** The script *)

(** [str(key)], as ['{key}'.format(key=key)] and ['{1}'.format(.., key)]
    write a key: a number in decimal, a name as it is, a pair as the
    tuple of the [repr]s of its parts. *)
Definition str_key (k : Key) : string :=
  match k with
  | KInt n => Py.str_int n
  | KName s => s
  | KPair name ver => "(" ++ Py.repr_str name ++ ", " ++ Py.repr_int ver ++ ")"
  end.

(** The two classes; [JSONHeaderFormatter] inherits everything but
    [_format_hdulist]. *)
Inductive class : Type := HeaderFormatter | JSONHeaderFormatter.

Record formatter : Type := { cls : class; hdulist : HDUList }.

(** The parsed command line: [--ext], [--json] and the paths
    ([args.filename]). *)
Record Args : Type := {
  ext : option string;
  json : bool;
  filenames : list string
}.

Section Script.

(** [os.linesep], and what [fits.open] answers for a path. *)
Variable linesep : string.
Variable fits_open : string -> result HDUList.

(** [HeaderFormatter.__init__] (lines 49-53).  A [fits.open] that
    succeeds is recorded among the effects. *)
Definition init (c : class) (name : string) : io formatter :=
  match fits_open name with
  | Ok h => _ <-- emit (EvOpen name) ;; io_ret {| cls := c; hdulist := h |}
  | Raise (IOError message) => lift (Raise (FormattingException message))
  | Raise e => lift (Raise e)
  end.

(** [HeaderFormatter._get_header] (lines 88-97). *)
Definition _get_header (self : formatter) (hdukey : Key) : result Header :=
  match getitem (hdulist self) hdukey with
  | Ok hdu => Ok (header hdu)
  | Raise IndexError =>
      Raise (FormattingException
               (filename (hdulist self) ++ ": Extension #"
                  ++ str_key hdukey ++ " not found."))
  | Raise (KeyError message) =>
      Raise (FormattingException (filename (hdulist self) ++ ": " ++ message))
  | Raise e => Raise e
  end.

(** [HeaderFormatter._format_hdulist] (lines 99-114): the loop over
    [enumerate(hdukeys)], with [i] the index reached and [text] the
    text built so far. *)
Fixpoint format_text (self : formatter) (i : nat) (hdukeys : list Key)
    (text : string) : result string :=
  match hdukeys with
  | [] => Ok text
  | key :: rest =>
      let prefix := if (0 <? i)%nat then linesep ++ linesep else "" in
      hdr <- _get_header self key ;;
      format_text self (S i) rest
        (text ++ prefix ++ "# HDU " ++ str_key key ++ " in "
           ++ filename (hdulist self) ++ ":" ++ linesep
           ++ tostring hdr linesep false)
  end.

(** [JSONHeaderFormatter._format_hdulist] (lines 122-142): the loop
    appends one dictionary per key to [js['hdulist']].  [mydict] is
    [OrderedDict], which the import of lines 125-129 finds on every
    Python from 2.7 on. *)
Fixpoint format_json (self : formatter) (hdukeys : list Key)
    (js : list (string * obj)) : result (list (string * obj)) :=
  match hdukeys with
  | [] => Ok js
  | key :: rest =>
      let hdudict := setitem "hdu" (of_key key) [] in
      hdr <- _get_header self key ;;
      let hdudict :=
        setitem "cards"
          (PDict (odict (combine (keys hdr) (map of_value (values hdr)))))
          hdudict in
      format_json self rest (append_at "hdulist" (PDict hdudict) js)
  end.

(** [self._format_hdulist(hdukeys)], resolved by the class of [self]. *)
Definition _format_hdulist (self : formatter) (hdukeys : list Key)
    : result string :=
  match cls self with
  | HeaderFormatter => format_text self 0 hdukeys ""
  | JSONHeaderFormatter =>
      let js := setitem "filename" (PStr (filename (hdulist self))) [] in
      let js := setitem "hdulist" (PList []) js in
      js <- format_json self hdukeys js ;;
      dumps (PDict js) 2
  end.

(** The first half of [HeaderFormatter.parse] (lines 70-83): the keys
    of the units to display. *)
Definition hdukeys (self : formatter) (extension : option string)
    : result (list Key) :=
  match extension with
  | None =>
      Ok (map (fun i => KInt (Z.of_nat i)) (seq 0 (len (hdulist self))))
  | Some extension =>
      match Py.int extension with
      | Some n => Ok [KInt n]
      | None =>
          let parts := Py.split Py.comma extension in
          if (1 <? List.length parts)%nat then
            let extname := Py.join "," (Py.but_last parts) in
            match Py.int (Py.last_part parts) with
            | Some extver => Ok [KPair extname extver]
            | None => Raise ValueError
            end
          else Ok [KName extension]
      end
  end.

(** [HeaderFormatter.parse] (lines 55-86). *)
Definition parse (self : formatter) (extension : option string)
    : result string :=
  keys <- hdukeys self extension ;;
  _format_hdulist self keys.

(** The loop of [main] (lines 160-164). *)
Fixpoint main_loop (args : Args) (names : list string) : io unit :=
  match names with
  | [] => io_ret tt
  | name :: rest =>
      self <-- init (if json args then JSONHeaderFormatter
                     else HeaderFormatter) name ;;
      text <-- lift (parse self (ext args)) ;;
      _ <-- emit (EvPrint text) ;;
      main_loop args rest
  end.

(** [main], after the arguments are parsed (lines 159-166): the loop
    inside one [try], whose handler logs a [FormattingException]. *)
Definition main (args : Args) : io unit :=
  fun t =>
    match main_loop args (filenames args) t with
    | (t', Raise (FormattingException message)) =>
        emit (EvLogError message) t'
    | outcome => outcome
    end.

End Script.

(** ** A container as a list of units *)

Module Decoder.

(** Modelled from the spec: a sub-unit of a container as the glossary has
    it, with the name and the version it is looked up by and its header. *)
Record SubUnit : Type := { extname : string; extver : Z; hdr : Header }.

(** Modelled from the spec: whether a name, or a name and a version,
    matches a unit. *)
Definition matches (k : Key) (u : SubUnit) : bool :=
  match k with
  | KInt _ => false
  | KName name => String.eqb name (extname u)
  | KPair name ver => String.eqb name (extname u) && Z.eqb ver (extver u)
  end.

(** Modelled from the spec: the decoder's keyed access
    [ContainerHandle[key]] (the [__getitem__] of [HDUList]), which is not
    part of the script.  The spec gives its two failures: index out of
    range for an integer outside the range of the units, key not found
    for a name or a pair that matches no unit (more than one match is a
    lookup failure of the same kind), and it requires the reported
    message to hold the offending key; [_get_header] forwards the
    message of a key failure as it is, so that message names the key.
    An integer indexes the sequence of units as Python does, a negative
    one counting from the end. *)
Definition lookup (units : list SubUnit) (k : Key) : result HDU :=
  match k with
  | KInt i =>
      let n := Z.of_nat (List.length units) in
      let j := if (i <? 0)%Z then (i + n)%Z else i in
      if ((0 <=? j) && (j <? n))%Z
      then match nth_error units (Z.to_nat j) with
           | Some u => Ok {| header := hdr u |}
           | None => Raise IndexError
           end
      else Raise IndexError
  | _ =>
      match filter (matches k) units with
      | [] => Raise (KeyError ("Extension " ++ str_key k ++ " not found."))
      | [u] => Ok {| header := hdr u |}
      | _ => Raise (KeyError ("There are several extensions of "
                                ++ str_key k ++ "."))
      end
  end.

(** Modelled from the spec: the container handle of a file, with its
    display name, its number of units and the keyed access above. *)
Definition container (name : string) (units : list SubUnit) : HDUList :=
  {| filename := name;
     len := List.length units;
     getitem := lookup units |}.

End Decoder.

(** ** Sample data *)

Module Sample.

Definition LF : string := String Json.LF EmptyString.

(** A rendering in the manner of the decoder's: one line per card and
    the closing [END]. *)
Definition render (cs : list (string * Value)) (sep : string) (_ : bool)
    : string :=
  String.concat sep (map fst cs ++ ["END"])%list.

Definition mk (cs : list (string * Value)) : Header :=
  {| cards := cs; tostring := render cs |}.

Definition primary : Decoder.SubUnit :=
  {| Decoder.extname := "PRIMARY"; Decoder.extver := 1;
     Decoder.hdr := mk [("SIMPLE", VBool true)] |}.

Definition sci : Decoder.SubUnit :=
  {| Decoder.extname := "SCI"; Decoder.extver := 2;
     Decoder.hdr := mk [("BITPIX", VInt 8)] |}.

Definition notes : Decoder.SubUnit :=
  {| Decoder.extname := "NOTES"; Decoder.extver := 1;
     Decoder.hdr := mk [("COMMENT", VStr "first"); ("NAXIS", VInt 0);
                        ("COMMENT", VStr "second")] |}.

(** Three paths: the second is not a readable file. *)
Definition disk (name : string) : result HDUList :=
  if String.eqb name "one.fits"
  then Ok (Decoder.container name [primary; sci])
  else if String.eqb name "three.fits"
  then Ok (Decoder.container name [primary; notes])
  else Raise (IOError ("cannot open " ++ name)).

Definition args (e : option string) (j : bool) (names : list string) : Args :=
  {| ext := e; json := j; filenames := names |}.

Definition one : HDUList := Decoder.container "one.fits" [primary; sci].
Definition three : HDUList := Decoder.container "three.fits" [primary; notes].

Definition text_one : formatter := {| cls := HeaderFormatter; hdulist := one |}.
Definition json_one : formatter :=
  {| cls := JSONHeaderFormatter; hdulist := one |}.

Definition three_files : list string := ["one.fits"; "two.fits"; "three.fits"].

End Sample.

(** ** Vocabulary of the statements *)

(** [sub] occurs in [s]. *)
Definition contains (sub s : string) : Prop :=
  exists before after, s = before ++ sub ++ after.

(** The block of the text output for one key: the line that names the
    key and the file, then the decoder's rendering of the header with
    [os.linesep] between the cards and without padding. *)
Definition block (linesep : string) (self : formatter) (kh : Key * Header)
    : string :=
  "# HDU " ++ str_key (fst kh) ++ " in " ++ filename (hdulist self) ++ ":"
    ++ linesep ++ tostring (snd kh) linesep false.

(** [k in l]. *)
Definition mem (k : string) (l : list string) : bool :=
  existsb (String.eqb k) l.

(** The keys of a list in the order of their first occurrence. *)
Fixpoint uniq (l : list string) : list string :=
  match l with
  | [] => []
  | k :: r => k :: filter (fun x => negb (String.eqb x k)) (uniq r)
  end.

(** The cards of a header as the JSON encoder is given them. *)
Definition json_cards (hdr : Header) : list (string * obj) :=
  map (fun kv => (fst kv, of_value (snd kv))) (cards hdr).

(** The [cards] dictionary of one unit, the element of [hdulist] for one
    key and the whole document of the JSON output. *)
Definition cards_dict (hdr : Header) : list (string * obj) :=
  odict (json_cards hdr).

Definition json_unit (kh : Key * Header) : obj :=
  PDict [("hdu", of_key (fst kh)); ("cards", PDict (cards_dict (snd kh)))].

Definition json_document (self : formatter) (keys : list Key)
    (hdrs : list Header) : obj :=
  PDict [("filename", PStr (filename (hdulist self)));
         ("hdulist", PList (map json_unit (combine keys hdrs)))].

(** Every key of [keys] resolves, to the header at the same place in
    [hdrs]. *)
Definition resolved (self : formatter) (keys : list Key) (hdrs : list Header)
    : Prop :=
  Forall2 (fun k h => _get_header self k = Ok h) keys hdrs.

(** The class [main] instantiates. *)
Definition class_of (args : Args) : class :=
  if json args then JSONHeaderFormatter else HeaderFormatter.

(** [name] opens and its formatter builds [text]: what [main] prints for
    it. *)
Definition prints (linesep : string) (fits_open : string -> result HDUList)
    (args : Args) (name text : string) : Prop :=
  exists h,
    fits_open name = Ok h /\
    parse linesep {| cls := class_of args; hdulist := h |} (ext args) = Ok text.

(** Processing [name] ends in a [FormattingException] with [message]:
    the file does not open, or it opens and [parse] raises. *)
Definition fails (linesep : string) (fits_open : string -> result HDUList)
    (args : Args) (name message : string) : Prop :=
  fits_open name = Raise (IOError message) \/
  exists h,
    fits_open name = Ok h /\
    parse linesep {| cls := class_of args; hdulist := h |} (ext args)
    = Raise (FormattingException message).

(** The effects of files that print: an opening and a print each. *)
Definition effects_of (names texts : list string) : list event :=
  flat_map (fun nt => [EvOpen (fst nt); EvPrint (snd nt)]) (combine names texts).

(** The files opened, in a sequence of effects. *)
Fixpoint opened (t : list event) : list string :=
  match t with
  | [] => []
  | EvOpen f :: r => f :: opened r
  | _ :: r => opened r
  end.

(** A batch survives its bad files when every file of the command line
    that can be printed is printed. *)
Definition batch_survives (linesep : string)
    (fits_open : string -> result HDUList) (args : Args) : Prop :=
  forall name text,
    In name (filenames args) ->
    prints linesep fits_open args name text ->
    In text (stdout (fst (main linesep fits_open args []))).

(** A malformed version is reported when the run of [main] ends normally
    with an error in the log. *)
Definition reported (linesep : string) (fits_open : string -> result HDUList)
    (args : Args) : Prop :=
  exists t, main linesep fits_open args [] = (t, Ok tt) /\ errors t <> [].

(** A key of the list-backed container that the decoder cannot resolve
    for want of a unit: an integer outside the range of the units, a name
    or a pair that no unit matches. *)
Definition not_found (units : list Decoder.SubUnit) (k : Key) : Prop :=
  match k with
  | KInt i =>
      (i < - Z.of_nat (List.length units) \/ Z.of_nat (List.length units) <= i)%Z
  | _ => forall u, In u units -> Decoder.matches k u = false
  end.

(** The value of a run of decimal digits read after the value [acc]. *)
Fixpoint uint_val (acc : Z) (d : Decimal.uint) : Z :=
  match d with
  | Decimal.Nil => acc
  | Decimal.D0 l => uint_val (10 * acc + 0) l
  | Decimal.D1 l => uint_val (10 * acc + 1) l
  | Decimal.D2 l => uint_val (10 * acc + 2) l
  | Decimal.D3 l => uint_val (10 * acc + 3) l
  | Decimal.D4 l => uint_val (10 * acc + 4) l
  | Decimal.D5 l => uint_val (10 * acc + 5) l
  | Decimal.D6 l => uint_val (10 * acc + 6) l
  | Decimal.D7 l => uint_val (10 * acc + 7) l
  | Decimal.D8 l => uint_val (10 * acc + 8) l
  | Decimal.D9 l => uint_val (10 * acc + 9) l
  end.

(** What the constructor of a formatter raises for a failed [fits.open]. *)
Definition init_error (e : exn) : exn :=
  match e with
  | IOError message => FormattingException message
  | _ => e
  end.

(** Processing [name] raises [e]: the file does not open, or it opens and
    [parse] raises. *)
Definition process_raises (linesep : string)
    (fits_open : string -> result HDUList) (args : Args) (name : string)
    (e : exn) : Prop :=
  (exists e0, fits_open name = Raise e0 /\ e = init_error e0) \/
  (exists h,
     fits_open name = Ok h /\
     parse linesep {| cls := class_of args; hdulist := h |} (ext args) = Raise e).

(** * Properties *)

(** ** Text *)

Section TextFacts.

Lemma append_nil_r (s : string) : s ++ "" = s.
Proof. induction s as [|c s IH]; simpl; [reflexivity | now rewrite IH]. Qed.

Lemma append_assoc (a b c : string) : (a ++ b) ++ c = a ++ b ++ c.
Proof. induction a as [|x a IH]; simpl; [reflexivity | now rewrite IH]. Qed.

Lemma split_not_nil (sep : ascii) (s : string) : Py.split sep s <> [].
Proof.
  destruct s as [|c s]; simpl; [discriminate|].
  destruct (Ascii.eqb c sep); [discriminate|].
  destruct (Py.split sep s); discriminate.
Qed.

(** Joining the pieces with the separator gives the text back. *)
Lemma join_split (sep : ascii) (s : string) :
  Py.join (String sep "") (Py.split sep s) = s.
Proof.
  unfold Py.join.
  induction s as [|c s IH]; simpl; [reflexivity|].
  destruct (Ascii.eqb_spec c sep) as [->|Hne].
  - pose proof (split_not_nil sep s) as Hnn.
    simpl. destruct (Py.split sep s) as [|p ps]; [contradiction|].
    simpl in *. now rewrite IH.
  - pose proof (split_not_nil sep s) as Hnn.
    destruct (Py.split sep s) as [|p ps]; [contradiction|].
    destruct ps as [|q qs]; simpl in *; now rewrite <- IH.
Qed.

(** No piece holds the separator. *)
Lemma split_pieces (sep : ascii) (s : string) :
  Forall (fun p => Py.contains_char sep p = false) (Py.split sep s).
Proof.
  induction s as [|c s IH]; simpl.
  - constructor; [reflexivity | constructor].
  - destruct (Ascii.eqb_spec c sep) as [->|Hne].
    + constructor; [reflexivity | exact IH].
    + destruct (Py.split sep s) as [|p ps]; simpl.
      * constructor; [|constructor].
        unfold Py.contains_char; simpl.
        destruct (Ascii.eqb_spec sep c); [congruence | reflexivity].
      * inversion IH as [|? ? Hp Hps]; subst.
        constructor; [|exact Hps].
        unfold Py.contains_char in *; simpl.
        destruct (Ascii.eqb_spec sep c); [congruence | exact Hp].
Qed.

(** One piece more than there are separators: a single piece exactly
    when the text has no separator. *)
Lemma split_single (sep : ascii) (s : string) :
  Py.contains_char sep s = false -> Py.split sep s = [s].
Proof.
  unfold Py.contains_char.
  induction s as [|c s IH]; simpl; [reflexivity|].
  rewrite (Ascii.eqb_sym sep c).
  destruct (Ascii.eqb c sep); simpl; [discriminate|].
  intros H. now rewrite (IH H).
Qed.

Lemma split_several (sep : ascii) (s : string) :
  Py.contains_char sep s = true -> 1 < List.length (Py.split sep s).
Proof.
  unfold Py.contains_char.
  induction s as [|c s IH]; simpl; [discriminate|].
  rewrite (Ascii.eqb_sym sep c).
  destruct (Ascii.eqb c sep); simpl.
  - intros _. pose proof (split_not_nil sep s).
    destruct (Py.split sep s); [contradiction | simpl; lia].
  - intros H. specialize (IH H).
    destruct (Py.split sep s); simpl in *; lia.
Qed.

Lemma split_length_comma (sep : ascii) (s : string) :
  1 < List.length (Py.split sep s) <-> Py.contains_char sep s = true.
Proof.
  split; [|apply split_several].
  destruct (Py.contains_char sep s) eqn:E; [reflexivity|].
  rewrite (split_single _ _ E). simpl. lia.
Qed.

Lemma concat_snoc (sep : string) (l : list string) (x : string) :
  l <> [] ->
  String.concat sep (l ++ [x])%list = String.concat sep l ++ sep ++ x.
Proof.
  induction l as [|a l IH]; [contradiction|]. intros _.
  destruct l as [|b l].
  - reflexivity.
  - change (String.concat sep ((a :: b :: l) ++ [x])%list)
      with (a ++ sep ++ String.concat sep ((b :: l) ++ [x])%list).
    rewrite IH by discriminate.
    change (String.concat sep (a :: b :: l))
      with (a ++ sep ++ String.concat sep (b :: l)).
    now rewrite !append_assoc.
Qed.

(** With more than one piece, the text is the join of all pieces but
    the last, a separator, and the last piece. *)
Lemma split_but_last (sep : ascii) (s : string) :
  1 < List.length (Py.split sep s) ->
  s = Py.join (String sep "") (Py.but_last (Py.split sep s))
        ++ String sep "" ++ Py.last_part (Py.split sep s).
Proof.
  intros Hlen.
  pose proof (join_split sep s) as Hj.
  pose proof (split_not_nil sep s) as Hnn.
  unfold Py.join, Py.but_last, Py.last_part in *.
  rewrite (app_removelast_last "" Hnn) in Hj at 1.
  rewrite concat_snoc in Hj; [now symmetry|].
  destruct (Py.split sep s) as [|a [|b l]]; simpl in *; [lia | lia | discriminate].
Qed.

End TextFacts.

(** ** The keys chosen by [parse] *)

Section Selector.

Variable self : formatter.

Lemma hdukeys_of_parts (extension : string) :
  Py.int extension = None ->
  1 < List.length (Py.split Py.comma extension) ->
  hdukeys self (Some extension) =
    match Py.int (Py.last_part (Py.split Py.comma extension)) with
    | Some extver =>
        Ok [KPair (Py.join "," (Py.but_last (Py.split Py.comma extension)))
              extver]
    | None => Raise ValueError
    end.
Proof.
  intros Hint Hlen. unfold hdukeys. rewrite Hint.
  apply Nat.ltb_lt in Hlen. now rewrite Hlen.
Qed.

(** C4: without an extension the keys are the integers 0, 1, ..., N-1 in
    that order, N being the number of units of the container. *)
Theorem hdukeys_absent :
  exists keys,
    hdukeys self None = Ok keys /\
    List.length keys = len (hdulist self) /\
    forall i, i < len (hdulist self) ->
              nth_error keys i = Some (KInt (Z.of_nat i)).
Proof.
  eexists. split; [reflexivity|]. split.
  - now rewrite length_map, length_seq.
  - intros i Hi.
    rewrite nth_error_map, nth_error_seq.
    apply Nat.ltb_lt in Hi. now rewrite Hi.
Qed.

(** C5: an extension that reads as an integer gives that integer as the
    only key, whatever the size of the container; an extension without
    comma that does not read as an integer gives itself, as a name. *)
Theorem hdukeys_number_or_name (extension : string) :
  (forall n, Py.int extension = Some n ->
             hdukeys self (Some extension) = Ok [KInt n]) /\
  (Py.int extension = None ->
   Py.contains_char Py.comma extension = false ->
   hdukeys self (Some extension) = Ok [KName extension]).
Proof.
  split.
  - intros n Hn. unfold hdukeys. now rewrite Hn.
  - intros Hint Hcomma. unfold hdukeys. rewrite Hint.
    now rewrite (split_single _ _ Hcomma).
Qed.

(** C3: an extension that does not read as an integer and has more than
    one comma-separated part gives one key, the pair of the parts before
    the last joined by commas and of the last part read as an integer;
    the name is the text before the last comma, commas included. *)
Theorem hdukeys_name_version (extension : string) :
  Py.int extension = None ->
  1 < List.length (Py.split Py.comma extension) ->
  let parts := Py.split Py.comma extension in
  let extname := Py.join "," (Py.but_last parts) in
  hdukeys self (Some extension)
    = match Py.int (Py.last_part parts) with
      | Some extver => Ok [KPair extname extver]
      | None => Raise ValueError
      end /\
  (forall extver, Py.int (Py.last_part parts) = Some extver ->
                  hdukeys self (Some extension) = Ok [KPair extname extver]) /\
  extension = extname ++ "," ++ Py.last_part parts /\
  Py.contains_char Py.comma (Py.last_part parts) = false.
Proof.
  intros Hint Hlen parts extname.
  pose proof (hdukeys_of_parts extension Hint Hlen) as Heq.
  split; [exact Heq|]. split; [|split].
  - intros extver Hver. fold parts in Heq. fold extname in Heq.
    now rewrite Hver in Heq.
  - exact (split_but_last Py.comma extension Hlen).
  - pose proof (split_pieces Py.comma extension) as Hall.
    pose proof (split_not_nil Py.comma extension) as Hnn.
    fold parts in Hall, Hnn. unfold Py.last_part.
    rewrite Forall_forall in Hall. apply Hall.
    destruct parts as [|p ps]; [contradiction|].
    apply (@exists_last _ (p :: ps)) in Hnn as [l [x ->]].
    rewrite last_last. apply in_or_app. right. now left.
Qed.

(** A version that does not read as an integer makes the selection
    raise [ValueError]. *)
Lemma hdukeys_bad_version (extension : string) :
  Py.int extension = None ->
  Py.contains_char Py.comma extension = true ->
  Py.int (Py.last_part (Py.split Py.comma extension)) = None ->
  hdukeys self (Some extension) = Raise ValueError.
Proof.
  intros Hint Hcomma Hver.
  rewrite hdukeys_of_parts; [now rewrite Hver | exact Hint |].
  now apply split_length_comma.
Qed.

End Selector.

(** ** Retrieval of a header *)

Section Retrieval.

Variable self : formatter.

Lemma contains_here (a sub b : string) : contains sub (a ++ sub ++ b).
Proof. now exists a, b. Qed.

Lemma contains_prefix (sub rest : string) : contains sub (sub ++ rest).
Proof. now exists "", rest. Qed.

Lemma contains_append_r (sub a b : string) :
  contains sub b -> contains sub (a ++ b).
Proof.
  intros [x [y ->]]. exists (a ++ x), y. now rewrite append_assoc.
Qed.

Lemma get_header_found (k : Key) (hdu : HDU) :
  getitem (hdulist self) k = Ok hdu -> _get_header self k = Ok (header hdu).
Proof. intros H. unfold _get_header. now rewrite H. Qed.

(** An index the decoder rejects is reported with the file and the key. *)
Lemma get_header_index_error (k : Key) :
  getitem (hdulist self) k = Raise IndexError ->
  _get_header self k =
    Raise (FormattingException
             (filename (hdulist self) ++ ": Extension #" ++ str_key k
                ++ " not found.")).
Proof. intros H. unfold _get_header. now rewrite H. Qed.

(** A key the decoder rejects is reported with the file and the
    decoder's own message. *)
Lemma get_header_key_error (k : Key) (message : string) :
  getitem (hdulist self) k = Raise (KeyError message) ->
  _get_header self k =
    Raise (FormattingException (filename (hdulist self) ++ ": " ++ message)).
Proof. intros H. unfold _get_header. now rewrite H. Qed.

(** What the script itself guarantees about the message: an index
    failure is reported with the file name and the key, a key failure
    with the file name and whatever the decoder's message holds. *)
Lemma get_header_reports (k : Key) :
  getitem (hdulist self) k = Raise IndexError \/
  (exists m, getitem (hdulist self) k = Raise (KeyError m) /\
             contains (str_key k) m) ->
  exists message,
    _get_header self k = Raise (FormattingException message) /\
    contains (filename (hdulist self)) message /\
    contains (str_key k) message.
Proof.
  intros [Hidx | [m [Hkey Hm]]].
  - eexists. split; [exact (get_header_index_error k Hidx)|]. split.
    + apply contains_prefix.
    + apply contains_append_r. apply (contains_here ": Extension #").
  - eexists. split; [exact (get_header_key_error k m Hkey)|]. split.
    + apply contains_prefix.
    + apply contains_append_r. now apply (contains_append_r _ ": ").
Qed.

End Retrieval.

Section NotFound.

Variable c : class.
Variable name : string.
Variable units : list Decoder.SubUnit.

Let self : formatter :=
  {| cls := c; hdulist := Decoder.container name units |}.

Lemma lookup_out_of_range (i : Z) :
  (i < - Z.of_nat (List.length units) \/ Z.of_nat (List.length units) <= i)%Z ->
  Decoder.lookup units (KInt i) = Raise IndexError.
Proof.
  intros Hi. unfold Decoder.lookup.
  set (n := Z.of_nat (List.length units)) in *.
  assert (0 <= n)%Z by (subst n; lia).
  destruct (Z.ltb_spec i 0).
  - replace ((0 <=? i + n) && (i + n <? n))%bool%Z with false; [reflexivity|].
    symmetry. apply andb_false_iff.
    destruct Hi; [left; apply Z.leb_gt | right; apply Z.ltb_ge]; lia.
  - replace ((0 <=? i) && (i <? n))%bool%Z with false; [reflexivity|].
    symmetry. apply andb_false_iff. right. apply Z.ltb_ge. lia.
Qed.

Lemma lookup_no_match (k : Key) :
  (forall i, k <> KInt i) ->
  (forall u, In u units -> Decoder.matches k u = false) ->
  Decoder.lookup units k =
    Raise (KeyError ("Extension " ++ str_key k ++ " not found.")).
Proof.
  intros Hk Hno.
  assert (filter (Decoder.matches k) units = []) as Hf.
  { clear Hk. induction units as [|u us IH]; [reflexivity|].
    simpl. rewrite (Hno u (or_introl eq_refl)).
    apply IH. intros v Hv. apply Hno. now right. }
  destruct k as [i|s|s v]; [now elim (Hk i)| |];
    unfold Decoder.lookup; now rewrite Hf.
Qed.

(** C8: a key the container has no unit for, an integer outside its
    range or a name and version that match no unit, makes the retrieval
    fail with the script's error, and the message holds the file name of
    the container and the key. *)
Theorem get_header_not_found (k : Key) :
  not_found units k ->
  exists message,
    _get_header self k = Raise (FormattingException message) /\
    contains name message /\
    contains (str_key k) message.
Proof.
  intros Hnf.
  apply (get_header_reports self k).
  cbn [self hdulist getitem Decoder.container].
  destruct k as [i|s|s v].
  - left. now apply lookup_out_of_range.
  - right. eexists. split.
    + apply lookup_no_match; [intros i; discriminate | exact Hnf].
    + apply (contains_here "Extension ").
  - right. eexists. split.
    + apply lookup_no_match; [intros i; discriminate | exact Hnf].
    + apply (contains_here "Extension ").
Qed.

End NotFound.

(** ** Ordered dictionaries *)

Section OrderedDict.

Context {V : Type}.

Implicit Types (d pairs : list (string * V)) (k : string) (v : V).

Lemma mem_In k (l : list string) : mem k l = true <-> In k l.
Proof.
  unfold mem. rewrite existsb_exists. split.
  - intros [x [Hx Heq]]. apply String.eqb_eq in Heq. now subst.
  - intros H. exists k. split; [exact H | apply String.eqb_refl].
Qed.

Lemma setitem_keys k v d :
  map fst (setitem k v d)
  = if mem k (map fst d) then map fst d else (map fst d ++ [k])%list.
Proof.
  induction d as [|[k' v'] d IH]; simpl; [reflexivity|].
  destruct (String.eqb_spec k k') as [->|Hne]; simpl; [reflexivity|].
  rewrite IH. now destruct (mem k (map fst d)).
Qed.

Lemma setitem_lookup k v k0 d :
  lookup k0 (setitem k v d)
  = if String.eqb k0 k then Some v else lookup k0 d.
Proof.
  induction d as [|[k' v'] d IH]; simpl.
  - reflexivity.
  - destruct (String.eqb_spec k k') as [->|Hne]; simpl.
    + now destruct (String.eqb k0 k').
    + rewrite IH.
      destruct (String.eqb_spec k0 k') as [->|]; [|reflexivity].
      destruct (String.eqb_spec k' k); congruence.
Qed.

Lemma lookup_app k (l1 l2 : list (string * V)) :
  lookup k (l1 ++ l2)%list
  = match lookup k l1 with Some v => Some v | None => lookup k l2 end.
Proof.
  induction l1 as [|[k' v'] l1 IH]; simpl; [reflexivity|].
  now destruct (String.eqb k k').
Qed.

Lemma filter_filter {A : Type} (p q : A -> bool) (l : list A) :
  filter p (filter q l) = filter (fun x => q x && p x) l.
Proof.
  induction l as [|a l IH]; simpl; [reflexivity|].
  destruct (q a); simpl; [destruct (p a)|]; now rewrite IH.
Qed.

(** Storing pairs one after the other into [d]: the keys of [d] stay
    where they are and the new keys follow, in the order of their first
    occurrence. *)
Lemma fold_setitem_keys pairs d :
  map fst (fold_left (fun d kv => setitem (fst kv) (snd kv) d) pairs d)
  = (map fst d
       ++ filter (fun x => negb (mem x (map fst d))) (uniq (map fst pairs)))%list.
Proof.
  revert d. induction pairs as [|[k v] pairs IH]; intros d; simpl.
  - now rewrite app_nil_r.
  - rewrite IH, setitem_keys.
    destruct (mem k (map fst d)) eqn:Hk; simpl.
    + f_equal. rewrite filter_filter. apply filter_ext. intros x.
      destruct (String.eqb_spec x k) as [->|]; simpl; [now rewrite Hk|reflexivity].
    + rewrite <- app_assoc. simpl. f_equal. f_equal.
      rewrite filter_filter. apply filter_ext. intros x.
      unfold mem. rewrite existsb_app. simpl.
      rewrite orb_false_r, negb_orb. apply andb_comm.
Qed.

Lemma fold_setitem_lookup pairs d k :
  lookup k (fold_left (fun d kv => setitem (fst kv) (snd kv) d) pairs d)
  = match lookup k (rev pairs) with
    | Some v => Some v
    | None => lookup k d
    end.
Proof.
  revert d. induction pairs as [|[k' v'] pairs IH]; intros d; simpl.
  - reflexivity.
  - rewrite IH, lookup_app, setitem_lookup. simpl.
    destruct (lookup k (rev pairs)); [reflexivity|].
    now destruct (String.eqb k k').
Qed.

(** The keys of [OrderedDict(pairs)], in order. *)
Lemma odict_keys pairs : map fst (odict pairs) = uniq (map fst pairs).
Proof.
  unfold odict. rewrite fold_setitem_keys. simpl.
  induction (uniq (map fst pairs)) as [|a l IH]; simpl; now f_equal.
Qed.

(** The value under a key is the one of its last pair. *)
Lemma odict_lookup pairs k : lookup k (odict pairs) = lookup k (rev pairs).
Proof.
  unfold odict. rewrite fold_setitem_lookup. simpl.
  now destruct (lookup k (rev pairs)).
Qed.

Lemma odict_length pairs :
  List.length (odict pairs) = List.length (uniq (map fst pairs)).
Proof. now rewrite <- odict_keys, length_map. Qed.

Lemma setitem_fresh k v d :
  mem k (map fst d) = false -> setitem k v d = (d ++ [(k, v)])%list.
Proof.
  induction d as [|[k' v'] d IH]; simpl; [reflexivity|].
  destruct (String.eqb k k'); simpl; [discriminate|].
  intros H. now rewrite IH.
Qed.

Lemma fold_setitem_nodup pairs d :
  NoDup (map fst d ++ map fst pairs) ->
  fold_left (fun d kv => setitem (fst kv) (snd kv) d) pairs d
  = (d ++ pairs)%list.
Proof.
  revert d. induction pairs as [|[k v] pairs IH]; intros d Hnd; simpl.
  - now rewrite app_nil_r.
  - simpl in Hnd.
    assert (mem k (map fst d) = false) as Hk.
    { destruct (mem k (map fst d)) eqn:E; [|reflexivity].
      apply mem_In in E. apply NoDup_remove_2 in Hnd.
      elim Hnd. apply in_or_app. now left. }
    rewrite (setitem_fresh _ _ _ Hk), IH.
    + now rewrite <- app_assoc.
    + rewrite map_app, <- app_assoc. exact Hnd.
Qed.

(** Pairs with distinct keys are stored as they come. *)
Lemma odict_nodup pairs : NoDup (map fst pairs) -> odict pairs = pairs.
Proof. intros H. unfold odict. now rewrite fold_setitem_nodup. Qed.

End OrderedDict.

Section Uniq.

Lemma uniq_In (l : list string) (x : string) : In x (uniq l) <-> In x l.
Proof.
  induction l as [|k l IH]; simpl; [tauto|].
  rewrite filter_In, IH.
  destruct (String.eqb_spec x k) as [->|Hne]; simpl.
  - split; [intros [H|[_ H]]; [now left | discriminate] | now left].
  - split; [intros [H|[H _]]; [now left | now right]|].
    intros [H|H]; [now left | right; now split].
Qed.

Lemma uniq_NoDup (l : list string) : NoDup (uniq l).
Proof.
  induction l as [|k l IH]; simpl; [constructor|].
  constructor.
  - rewrite filter_In. intros [_ H]. now rewrite String.eqb_refl in H.
  - now apply NoDup_filter.
Qed.

Lemma filter_length_le {A : Type} (p : A -> bool) (l : list A) :
  List.length (filter p l) <= List.length l.
Proof.
  induction l as [|a l IH]; simpl; [lia|]. destruct (p a); simpl; lia.
Qed.

Lemma filter_all {A : Type} (p : A -> bool) (l : list A) :
  (forall x, In x l -> p x = true) -> filter p l = l.
Proof.
  induction l as [|a l IH]; simpl; [reflexivity|]. intros H.
  rewrite (H a (or_introl eq_refl)). f_equal. apply IH.
  intros x Hx. apply H. now right.
Qed.

Lemma filter_length_all {A : Type} (p : A -> bool) (l : list A) :
  List.length (filter p l) = List.length l -> forall x, In x l -> p x = true.
Proof.
  induction l as [|a l IH]; simpl; [contradiction|].
  pose proof (filter_length_le p l).
  destruct (p a) eqn:E; simpl; intros Hlen x [<-|Hx]; try lia; auto.
Qed.

Lemma uniq_length_le (l : list string) : List.length (uniq l) <= List.length l.
Proof.
  induction l as [|k l IH]; simpl; [lia|].
  pose proof (filter_length_le (fun x => negb (String.eqb x k)) (uniq l)). lia.
Qed.

Lemma uniq_NoDup_id (l : list string) : NoDup l -> uniq l = l.
Proof.
  induction 1 as [|k l Hk Hnd IH]; simpl; [reflexivity|].
  rewrite IH. f_equal. apply filter_all. intros x Hx.
  destruct (String.eqb_spec x k) as [->|]; [contradiction | reflexivity].
Qed.

(** Nothing is dropped exactly when no key is repeated. *)
Lemma uniq_length_NoDup (l : list string) :
  List.length (uniq l) = List.length l <-> NoDup l.
Proof.
  split; [|intros H; now rewrite uniq_NoDup_id].
  induction l as [|k l IH]; simpl; intros Hlen; [constructor|].
  pose proof (filter_length_le (fun x => negb (String.eqb x k)) (uniq l)).
  pose proof (uniq_length_le l).
  assert (List.length (uniq l) = List.length l) as Hl by lia.
  constructor; [|now apply IH].
  intros Hin. apply uniq_In in Hin.
  assert (negb (String.eqb k k) = true) as Habs.
  { apply (filter_length_all (fun x => negb (String.eqb x k)) (uniq l));
      [lia | exact Hin]. }
  now rewrite String.eqb_refl in Habs.
Qed.

End Uniq.

(** ** The two formatters *)

Section Formatters.

Variable linesep : string.
Variable self : formatter.

Lemma concat_empty_cons (x : string) (xs : list string) :
  String.concat "" (x :: xs) = x ++ String.concat "" xs.
Proof.
  destruct xs as [|y ys]; simpl; [now rewrite append_nil_r | reflexivity].
Qed.

Lemma concat_cons (sep b : string) (bs : list string) :
  String.concat sep (b :: bs)
  = b ++ String.concat "" (map (fun x => sep ++ x) bs).
Proof.
  revert b. induction bs as [|c bs IH]; intros b.
  - simpl. now rewrite append_nil_r.
  - change (String.concat sep (b :: c :: bs))
      with (b ++ sep ++ String.concat sep (c :: bs)).
    rewrite IH. cbn [map]. rewrite concat_empty_cons.
    now rewrite append_assoc.
Qed.

(** The loop of the text formatter past its first round: every block is
    written after two line separators. *)
Lemma format_text_later (keys : list Key) (hdrs : list Header) :
  resolved self keys hdrs ->
  forall i text, 0 < i ->
    format_text linesep self i keys text
    = Ok (text ++ String.concat ""
            (map (fun kh => (linesep ++ linesep) ++ block linesep self kh)
               (combine keys hdrs))).
Proof.
  induction 1 as [|k h keys hdrs Hk Hrest IH]; intros i text Hi.
  - simpl. now rewrite append_nil_r.
  - cbn [format_text]. rewrite Hk. cbn [bind].
    apply Nat.ltb_lt in Hi. rewrite Hi.
    rewrite IH by lia. f_equal.
    cbn [combine map]. rewrite concat_empty_cons.
    unfold block. cbn [fst snd]. now rewrite !append_assoc.
Qed.

Lemma format_text_first (k : Key) (h : Header) (keys : list Key)
    (hdrs : list Header) :
  resolved self (k :: keys) (h :: hdrs) ->
  format_text linesep self 0 (k :: keys) ""
  = Ok (block linesep self (k, h)
          ++ String.concat ""
               (map (fun kh => (linesep ++ linesep) ++ block linesep self kh)
                  (combine keys hdrs))).
Proof.
  intros Hres. inversion Hres as [|? ? ? ? Hk Hrest]; subst.
  cbn [format_text]. rewrite Hk. cbn [bind Nat.ltb Nat.leb].
  rewrite (format_text_later keys hdrs Hrest) by lia.
  reflexivity.
Qed.

(** C6: the text output is the blocks of the keys, in the order of the
    keys, each block the line [# HDU <key> in <filename>:] followed by
    the decoder's rendering of the header without padding; nothing
    stands before the first block and two line separators, the end of a
    block's last line and one empty line, stand before every other. *)
Theorem format_text_blocks (keys : list Key) (hdrs : list Header) :
  cls self = HeaderFormatter ->
  resolved self keys hdrs ->
  _format_hdulist linesep self keys
  = Ok (String.concat (linesep ++ linesep)
          (map (block linesep self) (combine keys hdrs))) /\
  forall k h keys' hdrs',
    keys = k :: keys' -> hdrs = h :: hdrs' ->
    _format_hdulist linesep self keys
    = Ok (("# HDU " ++ str_key k ++ " in " ++ filename (hdulist self) ++ ":"
             ++ linesep ++ tostring h linesep false)
            ++ String.concat ""
                 (map (fun kh => (linesep ++ linesep) ++ block linesep self kh)
                    (combine keys' hdrs'))).
Proof.
  intros Hcls Hres. unfold _format_hdulist. rewrite Hcls. split.
  - destruct Hres as [|k h keys hdrs Hk Hrest]; [reflexivity|].
    rewrite (format_text_first k h keys hdrs)
      by (unfold resolved; now constructor).
    cbn [combine map]. now rewrite concat_cons, map_map.
  - intros k h keys' hdrs' -> ->.
    now rewrite (format_text_first k h keys' hdrs').
Qed.

(** A key that does not resolve ends the text formatter with the error
    of the retrieval, whatever was formatted before. *)
Lemma format_text_raises (before : list Key) (hdrs : list Header) (k : Key)
    (after : list Key) (e : exn) :
  cls self = HeaderFormatter ->
  resolved self before hdrs ->
  _get_header self k = Raise e ->
  _format_hdulist linesep self (before ++ k :: after)%list = Raise e.
Proof.
  intros Hcls Hres Hk. unfold _format_hdulist. rewrite Hcls.
  generalize 0 "". induction Hres as [|k' h keys hdrs Hk' Hrest IH];
    intros i text; cbn [app format_text].
  - now rewrite Hk.
  - rewrite Hk'. cbn [bind]. apply IH.
Qed.

End Formatters.

Section JsonFormatter.

Variable linesep : string.

Lemma zip_keys_values (hdr : Header) :
  combine (keys hdr) (map of_value (values hdr)) = json_cards hdr.
Proof.
  unfold keys, values, json_cards.
  induction (cards hdr) as [|[k v] cs IH]; simpl; [reflexivity | now rewrite IH].
Qed.

Lemma json_cards_keys (hdr : Header) : map fst (json_cards hdr) = keys hdr.
Proof. unfold json_cards, keys. rewrite map_map. reflexivity. Qed.

(** The loop of the JSON formatter appends one element per key to the
    list under [hdulist] and leaves [filename] alone. *)
Lemma format_json_from (self : formatter) (keys : list Key)
    (hdrs : list Header) :
  resolved self keys hdrs ->
  forall (name : obj) (done : list obj),
    format_json self keys [("filename", name); ("hdulist", PList done)]
    = Ok [("filename", name);
          ("hdulist", PList (done ++ map json_unit (combine keys hdrs)))].
Proof.
  induction 1 as [|k h keys hdrs Hk Hrest IH]; intros name done.
  - simpl. now rewrite app_nil_r.
  - cbn [format_json]. rewrite Hk. cbn [bind].
    rewrite zip_keys_values.
    change (append_at "hdulist" ?x [("filename", name); ("hdulist", PList done)])
      with [("filename", name); ("hdulist", PList (done ++ [x]))].
    rewrite IH. cbn [combine map]. rewrite <- app_assoc. reflexivity.
Qed.

Lemma format_json_document (self : formatter) (keys : list Key)
    (hdrs : list Header) :
  cls self = JSONHeaderFormatter ->
  resolved self keys hdrs ->
  _format_hdulist linesep self keys = dumps (json_document self keys hdrs) 2.
Proof.
  intros Hcls Hres. unfold _format_hdulist. rewrite Hcls.
  change (setitem "hdulist" (PList [])
            (setitem "filename" (PStr (filename (hdulist self))) []))
    with [("filename", PStr (filename (hdulist self))); ("hdulist", PList [])].
  rewrite (format_json_from self keys hdrs Hres). reflexivity.
Qed.

(** The outermost layer of a document, written with an indentation of
    two. *)
Lemma dumps_document_layout (name : string) (units : list obj) (text : string) :
  encode 2 1 (PList units) = Ok text ->
  dumps (PDict [("filename", PStr name); ("hdulist", PList units)]) 2
  = Ok ("{" ++ String LF "  " ++ encode_basestring "filename" ++ ": "
          ++ encode_basestring name ++ ", "
          ++ String LF "  " ++ encode_basestring "hdulist" ++ ": " ++ text
          ++ String LF "}").
Proof.
  intros Henc. unfold dumps.
  cbn [encode]. cbn [encode] in Henc. rewrite Henc. cbn [bind].
  unfold bracket. cbn [String.concat]. rewrite !append_assoc. reflexivity.
Qed.

(** The layout of a non-empty list and of a non-empty dictionary at
    nesting depth [level]: every item on a line of its own, indented by
    [indent] blanks per level, and the closing bracket on a line indented
    as the container is. *)
Lemma encode_list_layout (indent level : nat) (items : list obj)
    (chunks : list string) :
  items <> [] ->
  Forall2 (fun x c => encode indent (S level) x = Ok c) items chunks ->
  encode indent level (PList items) = Ok (bracket "[" "]" indent level chunks).
Proof.
  intros Hne Hall.
  assert ((fix each (l : list obj) : result (list string) :=
             match l with
             | [] => Ok []
             | x :: r =>
                 c <- encode indent (S level) x ;;
                 cs <- each r ;;
                 Ok (c :: cs)
             end) items = Ok chunks) as Heach.
  { induction Hall as [|x c items chunks Hx Hrest IH]; [reflexivity|].
    rewrite Hx. cbn [bind].
    destruct items as [|y items].
    - inversion Hrest; subst. reflexivity.
    - rewrite IH by discriminate. reflexivity. }
  destruct items as [|x items]; [contradiction|].
  cbn [encode]. rewrite Heach. reflexivity.
Qed.

Lemma encode_dict_layout (indent level : nat) (items : list (string * obj))
    (chunks : list string) :
  items <> [] ->
  Forall2 (fun kv c => encode indent (S level) (snd kv) = Ok c) items chunks ->
  encode indent level (PDict items)
  = Ok (bracket "{" "}" indent level
          (map (fun kc => encode_basestring (fst (fst kc)) ++ key_separator
                            ++ snd kc)
             (combine items chunks))).
Proof.
  intros Hne Hall.
  assert ((fix each (l : list (string * obj)) : result (list string) :=
             match l with
             | [] => Ok []
             | (k, v) :: r =>
                 c <- encode indent (S level) v ;;
                 cs <- each r ;;
                 Ok ((encode_basestring k ++ key_separator ++ c) :: cs)
             end) items
          = Ok (map (fun kc => encode_basestring (fst (fst kc)) ++ key_separator
                                 ++ snd kc)
                  (combine items chunks))) as Heach.
  { clear Hne.
    induction Hall as [|[k v] c items chunks Hx Hrest IH]; [reflexivity|].
    cbn [snd] in Hx. rewrite Hx. cbn [bind]. rewrite IH. reflexivity. }
  destruct items as [|[k v] items]; [contradiction|].
  cbn [encode]. rewrite Heach. reflexivity.
Qed.

Lemma lookup_last_pair {W : Type} (a b : list (string * W)) (k : string) (v : W) :
  ~ In k (map fst b) ->
  lookup k (rev (a ++ (k, v) :: b)) = Some v.
Proof.
  intros Hb. rewrite rev_app_distr. cbn [rev]. rewrite <- app_assoc.
  rewrite lookup_app.
  assert (lookup k (rev b) = None) as ->.
  { assert (~ In k (map fst (rev b))) as Hr
      by (rewrite map_rev, <- in_rev; exact Hb).
    induction (rev b) as [|[k' v'] r IH]; [reflexivity|]. simpl in *.
    destruct (String.eqb_spec k k') as [->|]; [tauto | apply IH; tauto]. }
  simpl. now rewrite String.eqb_refl.
Qed.

End JsonFormatter.

Section JsonOutput.

Variable linesep : string.

Lemma resolved_nth (self : formatter) (keys : list Key) (hdrs : list Header) :
  resolved self keys hdrs ->
  forall i k, nth_error keys i = Some k ->
    exists h, _get_header self k = Ok h /\
              nth_error hdrs i = Some h /\
              nth_error (map json_unit (combine keys hdrs)) i
              = Some (json_unit (k, h)).
Proof.
  induction 1 as [|k0 h0 keys hdrs Hk Hrest IH]; intros i k Hi.
  - now destruct i.
  - destruct i as [|i]; simpl in *.
    + injection Hi as <-. now exists h0.
    + now apply IH.
Qed.

Lemma resolved_length (self : formatter) (keys : list Key)
    (hdrs : list Header) :
  resolved self keys hdrs ->
  List.length (map json_unit (combine keys hdrs)) = List.length keys.
Proof.
  induction 1 as [|k0 h0 keys hdrs Hk Hrest IH]; simpl; [reflexivity | now f_equal].
Qed.

(** C7: the JSON output is one document, written by the encoder with an
    indentation of two; its top level holds [filename], the file name of
    the container, and [hdulist], a list with one element per key in the
    order of the keys; the element of a key holds the key under [hdu]
    and under [cards] the dictionary of the header's cards, each keyword
    once, in the order in which the keywords first occur, with the value
    the header has for it (all cards as they are when no keyword is
    repeated). *)
Theorem format_json_structure (self : formatter) (keys : list Key)
    (hdrs : list Header) :
  cls self = JSONHeaderFormatter ->
  resolved self keys hdrs ->
  let units := map json_unit (combine keys hdrs) in
  _format_hdulist linesep self keys
  = dumps (PDict [("filename", PStr (filename (hdulist self)));
                  ("hdulist", PList units)]) 2 /\
  (forall text, encode 2 1 (PList units) = Ok text ->
     _format_hdulist linesep self keys
     = Ok ("{" ++ String LF "  " ++ encode_basestring "filename" ++ ": "
             ++ encode_basestring (filename (hdulist self)) ++ ", "
             ++ String LF "  " ++ encode_basestring "hdulist" ++ ": " ++ text
             ++ String LF "}")) /\
  List.length units = List.length keys /\
  (forall i k, nth_error keys i = Some k ->
     exists h, _get_header self k = Ok h /\
               nth_error hdrs i = Some h /\
               nth_error units i
               = Some (PDict [("hdu", of_key k);
                              ("cards", PDict (cards_dict h))])) /\
  (forall h,
     cards_dict h = odict (combine (Fits.keys h) (map of_value (values h))) /\
     map fst (cards_dict h) = uniq (Fits.keys h) /\
     (forall k, lookup k (cards_dict h) = lookup k (rev (json_cards h))) /\
     (NoDup (Fits.keys h) -> cards_dict h = json_cards h)).
Proof.
  intros Hcls Hres units.
  pose proof (format_json_document linesep self keys hdrs Hcls Hres) as Hdoc.
  split; [exact Hdoc|]. split; [|split; [|split]].
  - intros text Htext. rewrite Hdoc.
    now apply dumps_document_layout.
  - now apply resolved_length with (self := self).
  - intros i k Hi. now apply resolved_nth.
  - intros h. unfold cards_dict. split; [now rewrite zip_keys_values|].
    split; [|split].
    + now rewrite odict_keys, json_cards_keys.
    + intros k. apply odict_lookup.
    + intros Hnd. apply odict_nodup. now rewrite json_cards_keys.
Qed.

(** C10: the [cards] dictionary of the JSON output has one entry per
    distinct keyword of the header: the keywords stand in the order of
    their first occurrence, each with the value of its last card, so the
    dictionary is shorter than the header exactly when a keyword is
    repeated; the text output hands the header as it is to the decoder's
    rendering. *)
Theorem json_cards_one_per_keyword (h : HDUList) (key : Key) (hdr : Header) :
  getitem h key = Ok {| header := hdr |} ->
  let d := cards_dict hdr in
  _format_hdulist linesep {| cls := JSONHeaderFormatter; hdulist := h |} [key]
  = dumps (PDict [("filename", PStr (filename h));
                  ("hdulist",
                   PList [PDict [("hdu", of_key key); ("cards", PDict d)]])]) 2 /\
  NoDup (map fst d) /\
  map fst d = uniq (Fits.keys hdr) /\
  (forall k, In k (map fst d) <-> In k (Fits.keys hdr)) /\
  (forall before k v after,
     cards hdr = (before ++ (k, v) :: after)%list ->
     ~ In k (map fst after) ->
     lookup k d = Some (of_value v)) /\
  List.length d <= List.length (cards hdr) /\
  (List.length d < List.length (cards hdr) <-> ~ NoDup (Fits.keys hdr)) /\
  _format_hdulist linesep {| cls := HeaderFormatter; hdulist := h |} [key]
  = Ok ("# HDU " ++ str_key key ++ " in " ++ filename h ++ ":" ++ linesep
          ++ tostring hdr linesep false).
Proof.
  intros Hget d.
  assert (forall c, resolved {| cls := c; hdulist := h |} [key] [hdr]) as Hres.
  { intros c. repeat constructor.
    exact (get_header_found {| cls := c; hdulist := h |} key _ Hget). }
  assert (map fst d = uniq (Fits.keys hdr)) as Hkeys
    by (unfold d, cards_dict; now rewrite odict_keys, json_cards_keys).
  assert (List.length d = List.length (uniq (Fits.keys hdr))) as Hlen
    by (now rewrite <- Hkeys, length_map).
  assert (List.length (cards hdr) = List.length (Fits.keys hdr)) as Hcards
    by (unfold Fits.keys; now rewrite length_map).
  pose proof (uniq_length_le (Fits.keys hdr)) as Hle.
  pose proof (uniq_length_NoDup (Fits.keys hdr)) as Hiff.
  split; [|split; [|split; [|split; [|split; [|split; [|split]]]]]].
  - now rewrite (format_json_document linesep
                   {| cls := JSONHeaderFormatter; hdulist := h |}
                   [key] [hdr] eq_refl (Hres _)).
  - rewrite Hkeys. apply uniq_NoDup.
  - exact Hkeys.
  - intros k. rewrite Hkeys. apply uniq_In.
  - intros before k v after Hcs Hlast.
    unfold d, cards_dict. rewrite odict_lookup.
    unfold json_cards. rewrite Hcs, map_app. cbn [map fst snd].
    apply lookup_last_pair.
    rewrite map_map. exact Hlast.
  - lia.
  - split.
    + intros Hlt Hnd. apply Hiff in Hnd. lia.
    + intros Hnd. destruct (Nat.eq_dec (List.length (uniq (Fits.keys hdr)))
                              (List.length (Fits.keys hdr))) as [E|E].
      * elim Hnd. now apply Hiff.
      * lia.
  - unfold _format_hdulist. cbn [cls].
    rewrite (format_text_first linesep _ key hdr [] [] (Hres _)).
    cbn [combine map String.concat]. now rewrite append_nil_r.
Qed.

End JsonOutput.

(** ** The command line loop *)

Section Main.

Local Open Scope list_scope.

Variable linesep : string.
Variable fits_open : string -> result HDUList.
Variable args : Args.

Lemma stdout_app (a b : list event) : stdout (a ++ b) = (stdout a ++ stdout b)%list.
Proof.
  induction a as [|e a IH]; simpl; [reflexivity|].
  destruct e; simpl; now rewrite IH.
Qed.

Lemma errors_app (a b : list event) : errors (a ++ b) = (errors a ++ errors b)%list.
Proof.
  induction a as [|e a IH]; simpl; [reflexivity|].
  destruct e; simpl; now rewrite IH.
Qed.

Lemma opened_app (a b : list event) : opened (a ++ b) = (opened a ++ opened b)%list.
Proof.
  induction a as [|e a IH]; simpl; [reflexivity|].
  destruct e; simpl; now rewrite IH.
Qed.

Lemma main_loop_prints (name text : string) (rest : list string)
    (t : list event) :
  prints linesep fits_open args name text ->
  main_loop linesep fits_open args (name :: rest) t
  = main_loop linesep fits_open args rest (t ++ [EvOpen name; EvPrint text]).
Proof.
  intros [h [Hopen Hparse]]. cbn [main_loop].
  unfold io_bind at 1. unfold init. rewrite Hopen.
  unfold io_bind at 1. unfold emit at 1. unfold io_ret.
  unfold io_bind at 1. unfold lift.
  fold (class_of args). rewrite Hparse.
  unfold io_bind, emit. now rewrite <- app_assoc.
Qed.

Lemma main_loop_fails (name message : string) (rest : list string)
    (t : list event) :
  fails linesep fits_open args name message ->
  exists added,
    main_loop linesep fits_open args (name :: rest) t
    = (t ++ added, Raise (FormattingException message)) /\
    stdout added = [] /\ errors added = [].
Proof.
  intros [Hopen | [h [Hopen Hparse]]]; cbn [main_loop].
  - exists []. rewrite app_nil_r. split; [|split; reflexivity].
    unfold io_bind at 1. unfold init. now rewrite Hopen.
  - exists [EvOpen name]. split; [|split; reflexivity].
    unfold io_bind at 1. unfold init. rewrite Hopen.
    unfold io_bind at 1. unfold emit at 1. unfold io_ret.
    unfold io_bind at 1. unfold lift.
    fold (class_of args). now rewrite Hparse.
Qed.

Lemma main_loop_all_print (names texts rest : list string) :
  Forall2 (prints linesep fits_open args) names texts ->
  forall t,
    main_loop linesep fits_open args (names ++ rest) t
    = main_loop linesep fits_open args rest (t ++ effects_of names texts).
Proof.
  induction 1 as [|name text names texts Hp Hrest IH]; intros t.
  - unfold effects_of. simpl. now rewrite app_nil_r.
  - cbn [app]. rewrite (main_loop_prints name text _ t Hp), IH.
    unfold effects_of. cbn [combine flat_map fst snd].
    now rewrite <- app_assoc.
Qed.

(** When every file prints, [main] prints them all, in order, and logs
    nothing. *)
Lemma main_all_print (texts : list string) (t : list event) :
  Forall2 (prints linesep fits_open args) (filenames args) texts ->
  main linesep fits_open args t
  = (t ++ effects_of (filenames args) texts, Ok tt).
Proof.
  intros Hp. unfold main.
  pose proof (main_loop_all_print _ _ [] Hp t) as H.
  rewrite app_nil_r in H. rewrite H. reflexivity.
Qed.

Lemma effects_of_stdout (names texts : list string) :
  List.length names = List.length texts ->
  stdout (effects_of names texts) = texts.
Proof.
  revert texts. unfold effects_of.
  induction names as [|n names IH]; intros [|x texts] Hlen;
    try discriminate; [reflexivity|].
  cbn [combine flat_map fst snd app stdout]. f_equal. apply IH.
  now injection Hlen.
Qed.

Lemma effects_of_errors (names texts : list string) :
  errors (effects_of names texts) = [].
Proof.
  revert texts. unfold effects_of.
  induction names as [|n names IH]; intros [|x texts]; try reflexivity.
  cbn [combine flat_map fst snd app errors]. apply IH.
Qed.

Lemma effects_of_opened (names texts : list string) :
  List.length names = List.length texts ->
  opened (effects_of names texts) = names.
Proof.
  revert texts. unfold effects_of.
  induction names as [|n names IH]; intros [|x texts] Hlen;
    try discriminate; [reflexivity|].
  cbn [combine flat_map fst snd app opened]. f_equal. apply IH.
  now injection Hlen.
Qed.

Lemma prints_length (names texts : list string) :
  Forall2 (prints linesep fits_open args) names texts ->
  List.length names = List.length texts.
Proof. induction 1; simpl; congruence. Qed.

End Main.

Section Batch.

Local Open Scope list_scope.

Variable linesep : string.
Variable fits_open : string -> result HDUList.
Variable args : Args.

(** C1, as the script has it: a file whose processing raises the
    script's error ends the batch; the files before it have been
    printed, the error is logged once, [main] returns normally and the
    files after it are not processed. *)
Theorem main_stops_at_first_error (before texts : list string)
    (bad message : string) (after : list string) (t : list event) :
  filenames args = before ++ bad :: after ->
  Forall2 (prints linesep fits_open args) before texts ->
  fails linesep fits_open args bad message ->
  exists added,
    main linesep fits_open args t = (t ++ added, Ok tt) /\
    stdout added = texts /\
    errors added = [message].
Proof.
  intros Hnames Hbefore Hbad.
  unfold main. rewrite Hnames, (main_loop_all_print _ _ _ _ _ _ Hbefore).
  destruct (main_loop_fails linesep fits_open args bad message after
              (t ++ effects_of before texts) Hbad)
    as [added [-> [Hout Herr]]].
  exists (effects_of before texts ++ added ++ [EvLogError message]).
  split; [|split].
  - unfold emit. now rewrite <- !app_assoc.
  - rewrite !stdout_app, Hout. simpl. rewrite app_nil_r.
    apply effects_of_stdout. now apply prints_length in Hbefore.
  - rewrite !errors_app, Herr, effects_of_errors. reflexivity.
Qed.

(** C2, as the script has it: an extension with a comma whose last part
    does not read as an integer makes the selection raise Python's
    [ValueError]; that is not the script's error, [main] neither catches
    nor logs it, and it leaves [main] at the first file that opens. *)
Theorem bad_version_escapes (extension name : string) (rest : list string)
    (h : HDUList) (t : list event) :
  ext args = Some extension ->
  Py.int extension = None ->
  Py.contains_char Py.comma extension = true ->
  Py.int (Py.last_part (Py.split Py.comma extension)) = None ->
  filenames args = name :: rest ->
  fits_open name = Ok h ->
  (forall self, hdukeys self (Some extension) = Raise ValueError) /\
  (forall self, parse linesep self (Some extension) = Raise ValueError) /\
  main linesep fits_open args t = (t ++ [EvOpen name], Raise ValueError).
Proof.
  intros Hext Hint Hcomma Hver Hnames Hopen.
  assert (forall self, hdukeys self (Some extension) = Raise ValueError) as Hkeys
    by (intros self; now apply hdukeys_bad_version).
  assert (forall self, parse linesep self (Some extension) = Raise ValueError)
    as Hparse by (intros self; unfold parse; now rewrite Hkeys).
  split; [exact Hkeys|]. split; [exact Hparse|].
  unfold main. rewrite Hnames. cbn [main_loop].
  unfold io_bind at 1. unfold init. rewrite Hopen.
  unfold io_bind at 1. unfold emit at 1. unfold io_ret.
  unfold io_bind at 1. unfold lift. now rewrite Hext, Hparse.
Qed.

End Batch.

(** * The statements on sample data *)

Section Samples.

Local Open Scope list_scope.

Example split_sample : Py.split Py.comma "A,B,2" = ["A"; "B"; "2"].
Proof. reflexivity. Qed.

Example int_samples :
  Py.int "3" = Some 3%Z /\ Py.int " -12 " = Some (-12)%Z /\
  Py.int "SCI" = None /\ Py.int "SCI,2" = None /\ Py.int "" = None.
Proof. repeat split. Qed.

Example str_key_samples :
  str_key (KInt 1) = "1" /\ str_key (KName "SCI") = "SCI" /\
  str_key (KPair "SCI" 2) = "('SCI', 2)".
Proof. repeat split. Qed.

Example selector_samples :
  hdukeys Sample.text_one None = Ok [KInt 0; KInt 1] /\
  hdukeys Sample.text_one (Some "SCI,2") = Ok [KPair "SCI" 2] /\
  hdukeys Sample.text_one (Some "SCI,x") = Raise ValueError.
Proof. repeat split. Qed.

(** Two units, keys 0 and 1: one empty line, between the blocks. *)
Example text_sample :
  _format_hdulist Sample.LF Sample.text_one [KInt 0; KInt 1]
  = Ok ("# HDU 0 in one.fits:" ++ Sample.LF ++ "SIMPLE" ++ Sample.LF ++ "END"
          ++ Sample.LF ++ Sample.LF
          ++ "# HDU 1 in one.fits:" ++ Sample.LF ++ "BITPIX" ++ Sample.LF
          ++ "END")%string.
Proof. reflexivity. Qed.

(** The same two units as JSON. *)
Example json_sample :
  let q s := encode_basestring s in
  _format_hdulist Sample.LF Sample.json_one [KInt 0; KInt 1]
  = Ok (String.concat Sample.LF
          ["{";
           "  " ++ q "filename" ++ ": " ++ q "one.fits" ++ ", ";
           "  " ++ q "hdulist" ++ ": [";
           "    {";
           "      " ++ q "hdu" ++ ": 0, ";
           "      " ++ q "cards" ++ ": {";
           "        " ++ q "SIMPLE" ++ ": true";
           "      }";
           "    }, ";
           "    {";
           "      " ++ q "hdu" ++ ": 1, ";
           "      " ++ q "cards" ++ ": {";
           "        " ++ q "BITPIX" ++ ": 8";
           "      }";
           "    }";
           "  ]";
           "}"])%string.
Proof. reflexivity. Qed.

Example main_sample :
  main Sample.LF Sample.disk (Sample.args (Some "1") false Sample.three_files) []
  = ([EvOpen "one.fits";
      EvPrint ("# HDU 1 in one.fits:" ++ Sample.LF ++ "BITPIX" ++ Sample.LF
                 ++ "END")%string;
      EvLogError "cannot open two.fits"], Ok tt).
Proof. reflexivity. Qed.

End Samples.

Lemma hdukeys_number_or_name_witness :
  hdukeys Sample.text_one (Some "3") = Ok [KInt 3] /\
  hdukeys Sample.text_one (Some "SCI") = Ok [KName "SCI"].
Proof.
  split.
  - exact (proj1 (hdukeys_number_or_name Sample.text_one "3") 3%Z eq_refl).
  - exact (proj2 (hdukeys_number_or_name Sample.text_one "SCI") eq_refl eq_refl).
Defined.

Lemma hdukeys_name_version_witness :
  Py.int "A,B,2" = None /\
  1 < List.length (Py.split Py.comma "A,B,2") /\
  hdukeys Sample.text_one (Some "A,B,2") = Ok [KPair "A,B" 2].
Proof.
  assert (Py.int "A,B,2" = None) as H1 by reflexivity.
  assert (1 < List.length (Py.split Py.comma "A,B,2")) as H2 by (simpl; lia).
  split; [exact H1|]. split; [exact H2|].
  exact (proj1 (proj2 (hdukeys_name_version Sample.text_one "A,B,2" H1 H2))
           2%Z eq_refl).
Defined.

Lemma format_text_blocks_witness :
  resolved Sample.text_one [KInt 0; KInt 1]
    [Decoder.hdr Sample.primary; Decoder.hdr Sample.sci] /\
  _format_hdulist Sample.LF Sample.text_one [KInt 0; KInt 1]
  = Ok (String.concat (Sample.LF ++ Sample.LF)
          [block Sample.LF Sample.text_one (KInt 0, Decoder.hdr Sample.primary);
           block Sample.LF Sample.text_one (KInt 1, Decoder.hdr Sample.sci)]).
Proof.
  assert (resolved Sample.text_one [KInt 0; KInt 1]
            [Decoder.hdr Sample.primary; Decoder.hdr Sample.sci]) as H
    by (unfold resolved; repeat constructor).
  split; [exact H|].
  exact (proj1 (format_text_blocks Sample.LF Sample.text_one _ _ eq_refl H)).
Defined.

Lemma format_json_structure_witness :
  resolved Sample.json_one [KInt 0; KInt 1]
    [Decoder.hdr Sample.primary; Decoder.hdr Sample.sci] /\
  _format_hdulist Sample.LF Sample.json_one [KInt 0; KInt 1]
  = dumps (PDict [("filename", PStr "one.fits");
                  ("hdulist",
                   PList [PDict [("hdu", PInt 0);
                                 ("cards", PDict [("SIMPLE", PBool true)])];
                          PDict [("hdu", PInt 1);
                                 ("cards", PDict [("BITPIX", PInt 8)])]])]) 2.
Proof.
  assert (resolved Sample.json_one [KInt 0; KInt 1]
            [Decoder.hdr Sample.primary; Decoder.hdr Sample.sci]) as H
    by (unfold resolved; repeat constructor).
  split; [exact H|].
  exact (proj1 (format_json_structure Sample.LF Sample.json_one _ _ eq_refl H)).
Defined.

Lemma get_header_not_found_witness :
  not_found [Sample.primary; Sample.sci] (KInt 2) /\
  exists message,
    _get_header Sample.text_one (KInt 2) = Raise (FormattingException message) /\
    contains "one.fits" message /\ contains "2" message.
Proof.
  assert (not_found [Sample.primary; Sample.sci] (KInt 2)) as H
    by (right; simpl; lia).
  split; [exact H|].
  exact (get_header_not_found HeaderFormatter "one.fits"
           [Sample.primary; Sample.sci] (KInt 2) H).
Defined.

Lemma json_cards_one_per_keyword_witness :
  getitem Sample.three (KName "NOTES") = Ok {| header := Decoder.hdr Sample.notes |} /\
  cards_dict (Decoder.hdr Sample.notes)
  = [("COMMENT", PStr "second"); ("NAXIS", PInt 0)] /\
  List.length (cards_dict (Decoder.hdr Sample.notes))
  < List.length (cards (Decoder.hdr Sample.notes)).
Proof.
  assert (getitem Sample.three (KName "NOTES")
          = Ok {| header := Decoder.hdr Sample.notes |}) as H by reflexivity.
  split; [exact H|]. split; [reflexivity|].
  destruct (json_cards_one_per_keyword Sample.LF Sample.three (KName "NOTES")
              (Decoder.hdr Sample.notes) H)
    as [_ [_ [_ [_ [_ [_ [Hlt _]]]]]]].
  apply Hlt. intros Hnd. inversion Hnd as [|? ? Hin _]; subst.
  apply Hin. simpl. tauto.
Defined.

Lemma main_stops_at_first_error_witness :
  exists text added,
    prints Sample.LF Sample.disk (Sample.args None false Sample.three_files)
      "one.fits" text /\
    fails Sample.LF Sample.disk (Sample.args None false Sample.three_files)
      "two.fits" "cannot open two.fits" /\
    main Sample.LF Sample.disk (Sample.args None false Sample.three_files) []
    = (added, Ok tt) /\
    stdout added = [text] /\
    errors added = ["cannot open two.fits"].
Proof.
  set (a := Sample.args None false Sample.three_files).
  assert (exists text, prints Sample.LF Sample.disk a "one.fits" text)
    as [text Hone] by (eexists; exists Sample.one; split; reflexivity).
  assert (fails Sample.LF Sample.disk a "two.fits" "cannot open two.fits")
    as Htwo by (left; reflexivity).
  destruct (main_stops_at_first_error Sample.LF Sample.disk a
              ["one.fits"] [text] "two.fits" "cannot open two.fits"
              ["three.fits"] [] eq_refl
              (Forall2_cons _ _ Hone (Forall2_nil _)) Htwo)
    as [added [Hmain [Hout Herr]]].
  exists text, added. repeat split; assumption.
Defined.

Lemma bad_version_escapes_witness :
  main Sample.LF Sample.disk
    (Sample.args (Some "SCI,x") false ["one.fits"; "three.fits"]) []
  = ([EvOpen "one.fits"], Raise ValueError).
Proof.
  exact (proj2 (proj2
           (bad_version_escapes Sample.LF Sample.disk
              (Sample.args (Some "SCI,x") false ["one.fits"; "three.fits"])
              "SCI,x" "one.fits" ["three.fits"] Sample.one []
              eq_refl eq_refl eq_refl eq_refl eq_refl eq_refl))).
Defined.

(** Against C1 as it is stated: with three files of which the second
    does not open, the third, which would print, is not printed. *)
Lemma main_three_files_not_all_printed :
  Sample.disk "two.fits" = Raise (IOError "cannot open two.fits") /\
  (exists text,
     prints Sample.LF Sample.disk (Sample.args None false Sample.three_files)
       "three.fits" text) /\
  ~ batch_survives Sample.LF Sample.disk
      (Sample.args None false Sample.three_files).
Proof.
  split; [reflexivity|]. split.
  - eexists. exists Sample.three. split; reflexivity.
  - intros H.
    specialize (H "three.fits" _ (or_intror (or_intror (or_introl eq_refl)))
                  (ex_intro _ Sample.three (conj eq_refl eq_refl))).
    vm_compute in H. destruct H as [H|[]]. discriminate H.
Qed.

(** Against C2 as it is stated: the extension [SCI,x] makes [parse]
    raise [ValueError], which [main] does not turn into a logged error. *)
Lemma bad_version_not_reported :
  parse Sample.LF Sample.text_one (Some "SCI,x") = Raise ValueError /\
  ~ reported Sample.LF Sample.disk
      (Sample.args (Some "SCI,x") false ["one.fits"; "three.fits"]).
Proof.
  split; [reflexivity|].
  intros [t [H _]]. vm_compute in H. discriminate H.
Qed.


(** * Further properties of the script *)

(** ** The selection of keys, as a whole *)

Section SelectorOutcome.

Variable self : formatter.

(** X1: the selection of keys raises only [ValueError], and only for an
    extension that does not read as an integer, holds a comma and whose
    part after the last comma does not read as an integer; it raises for
    every such extension. *)
Theorem hdukeys_raises_iff (extension : option string) (e : exn) :
  hdukeys self extension = Raise e <->
  e = ValueError /\
  exists s,
    extension = Some s /\
    Py.int s = None /\
    Py.contains_char Py.comma s = true /\
    Py.int (Py.last_part (Py.split Py.comma s)) = None.
Proof.
  split.
  - destruct extension as [s|]; [|discriminate].
    unfold hdukeys.
    destruct (Py.int s) as [n|] eqn:Hint; [discriminate|].
    destruct (1 <? List.length (Py.split Py.comma s))%nat eqn:Hlen;
      [|discriminate].
    destruct (Py.int (Py.last_part (Py.split Py.comma s))) eqn:Hver;
      [discriminate|].
    intros H. injection H as <-. split; [reflexivity|].
    exists s. repeat split; auto.
    apply split_length_comma. now apply Nat.ltb_lt.
  - intros [-> [s [-> [Hint [Hcomma Hver]]]]].
    now apply hdukeys_bad_version.
Qed.

(** X2: an extension selects exactly one key, and the key tells how the
    extension was read: an integer key is the extension read as an
    integer; a name key is the extension itself, which then holds no
    comma; a pair key splits the extension at its last comma into the
    name and the text of the version. *)
Theorem hdukeys_inversion (s : string) (keys : list Key) :
  hdukeys self (Some s) = Ok keys ->
  exists k,
    keys = [k] /\
    match k with
    | KInt n => Py.int s = Some n
    | KName name =>
        name = s /\ Py.int s = None /\ Py.contains_char Py.comma s = false
    | KPair name ver =>
        Py.int s = None /\
        s = name ++ "," ++ Py.last_part (Py.split Py.comma s) /\
        Py.contains_char Py.comma (Py.last_part (Py.split Py.comma s)) = false /\
        Py.int (Py.last_part (Py.split Py.comma s)) = Some ver
    end.
Proof.
  unfold hdukeys.
  destruct (Py.int s) as [n|] eqn:Hint.
  - intros H. injection H as <-. now exists (KInt n).
  - destruct (1 <? List.length (Py.split Py.comma s))%nat eqn:Hlen.
    + apply Nat.ltb_lt in Hlen.
      destruct (Py.int (Py.last_part (Py.split Py.comma s))) as [ver|] eqn:Hver;
        [|discriminate].
      intros H. injection H as <-. eexists. split; [reflexivity|].
      cbn beta iota. split; [reflexivity|]. split; [|split; [|reflexivity]].
      * exact (split_but_last Py.comma s Hlen).
      * pose proof (split_pieces Py.comma s) as Hall.
        pose proof (split_not_nil Py.comma s) as Hnn.
        unfold Py.last_part. rewrite Forall_forall in Hall. apply Hall.
        destruct (Py.split Py.comma s) as [|p ps]; [contradiction|].
        apply (@exists_last _ (p :: ps)) in Hnn as [l [x ->]].
        rewrite last_last. apply in_or_app. right. now left.
    + intros H. injection H as <-. exists (KName s). split; [reflexivity|].
      repeat split; auto.
      destruct (Py.contains_char Py.comma s) eqn:Hc; [|reflexivity].
      apply split_several, Nat.ltb_lt in Hc. congruence.
Qed.

End SelectorOutcome.

(** ** Reading back a printed index *)

Section PrintedIndex.

Lemma digits_string_of_uint (d : Decimal.uint) :
  forall seen acc,
    d <> Decimal.Nil \/ seen = true ->
    Py.digits seen acc (NilEmpty.string_of_uint d) = Some (uint_val acc d).
Proof.
  induction d; intros seen acc Hd;
    try (cbn [NilEmpty.string_of_uint Py.digits uint_val];
         match goal with
         | |- context [Py.is_digit ?c] => change (Py.is_digit c) with true
         end;
         cbn iota;
         match goal with
         | |- context [Py.digit_val ?c] =>
             let v := eval vm_compute in (Py.digit_val c) in
             change (Py.digit_val c) with v
         end;
         apply IHd; now right).
  destruct Hd as [Hd| ->]; [now elim Hd | reflexivity].
Qed.

Lemma uint_val_of_uint_acc (l : Decimal.uint) :
  forall acc, Z.pos (Pos.of_uint_acc l acc) = uint_val (Z.pos acc) l.
Proof.
  induction l; intros acc; cbn [Pos.of_uint_acc uint_val];
    [reflexivity | rewrite IHl; f_equal; lia ..].
Qed.

Lemma uint_val_of_uint (d : Decimal.uint) : Z.of_uint d = uint_val 0 d.
Proof.
  unfold Z.of_uint.
  induction d; cbn [Pos.of_uint uint_val Z.of_N];
    [reflexivity | exact IHd | apply uint_val_of_uint_acc ..].
Qed.

Lemma int_string_of_uint (d : Decimal.uint) :
  Py.digits false 0 (NilZero.string_of_uint d) = Some (Z.of_uint d).
Proof.
  rewrite uint_val_of_uint.
  destruct d; try (apply digits_string_of_uint; left; discriminate).
  reflexivity.
Qed.

(** [int(str(n))] is [n]. *)
Lemma int_str_int (n : Z) : Py.int (Py.str_int n) = Some n.
Proof.
  unfold Py.str_int.
  rewrite <- (DecimalZ.of_to n) at 2.
  destruct (Z.to_int n) as [d|d]; cbn [NilZero.string_of_int Z.of_int].
  - rewrite <- int_string_of_uint. unfold Py.int.
    destruct d; reflexivity.
  - unfold Py.int. cbn [Py.lstrip]. change (Py.is_space "-") with false.
    cbn iota. now rewrite int_string_of_uint.
Qed.

(** X3: the number a header line of the text output shows for an integer
    key, given back as the extension, selects that same key; so does the
    number the JSON output holds under [hdu]. *)
Theorem hdukeys_of_printed_index (self : formatter) (n : Z) :
  hdukeys self (Some (str_key (KInt n))) = Ok [KInt n] /\
  (forall indent level text,
     encode indent level (of_key (KInt n)) = Ok text ->
     hdukeys self (Some text) = Ok [KInt n]).
Proof.
  assert (hdukeys self (Some (Py.str_int n)) = Ok [KInt n]) as H
    by (unfold hdukeys; now rewrite int_str_int).
  split; [exact H|].
  intros indent level text Henc. cbn in Henc. injection Henc as <-. exact H.
Qed.

End PrintedIndex.

(** ** Which errors leave [parse] *)

Section ParseErrors.

Variable linesep : string.

(** The encoder raises nothing but [TypeError]. *)
Lemma encode_raises (indent : nat) :
  forall o level e, encode indent level o = Raise e -> e = TypeError.
Proof.
  fix IH 1. intros o level e.
  destruct o as [s|n|b|t| |items|items].
  - discriminate.
  - discriminate.
  - destruct b; discriminate.
  - discriminate.
  - intros H. now injection H as <-.
  - assert (forall e',
              (fix each (l : list obj) : result (list string) :=
                 match l with
                 | [] => Ok []
                 | x :: r =>
                     c <- encode indent (S level) x ;;
                     cs <- each r ;;
                     Ok (c :: cs)
                 end) items = Raise e' -> e' = TypeError) as Heach.
    { induction items as [|x r IHr]; intros e'; [discriminate|].
      destruct (encode indent (S level) x) as [c|e0] eqn:Hx; cbn [bind].
      - match goal with
        | |- context [bind ?m _] => destruct m as [cs|e1] eqn:Hr
        end; cbn [bind]; [discriminate|].
        intros H. injection H as <-. now apply IHr.
      - intros H. injection H as <-. exact (IH x (S level) e0 Hx). }
    destruct items as [|x0 items0]; [discriminate|].
    cbn [encode].
    match goal with
    | |- context [bind ?m _] => destruct m as [cs|e1] eqn:Hr
    end; cbn [bind]; [discriminate|].
    intros H. injection H as <-. now apply Heach.
  - assert (forall e',
              (fix each (l : list (string * obj)) : result (list string) :=
                 match l with
                 | [] => Ok []
                 | (k, v) :: r =>
                     c <- encode indent (S level) v ;;
                     cs <- each r ;;
                     Ok ((encode_basestring k ++ key_separator ++ c) :: cs)
                 end) items = Raise e' -> e' = TypeError) as Heach.
    { induction items as [|[k v] r IHr]; intros e'; [discriminate|].
      destruct (encode indent (S level) v) as [c|e0] eqn:Hx; cbn [bind].
      - match goal with
        | |- context [bind ?m _] => destruct m as [cs|e1] eqn:Hr
        end; cbn [bind]; [discriminate|].
        intros H. injection H as <-. now apply IHr.
      - intros H. injection H as <-. exact (IH v (S level) e0 Hx). }
    destruct items as [|x0 items0]; [discriminate|].
    cbn [encode].
    match goal with
    | |- context [bind ?m _] => destruct m as [cs|e1] eqn:Hr
    end; cbn [bind]; [discriminate|].
    intros H. injection H as <-. now apply Heach.
Qed.

Lemma get_header_raises (self : formatter) (k : Key) (e : exn) :
  _get_header self k = Raise e ->
  (exists m, e = FormattingException m) \/
  (getitem (hdulist self) k = Raise e /\
   e <> IndexError /\ forall m, e <> KeyError m).
Proof.
  unfold _get_header.
  destruct (getitem (hdulist self) k) as [hdu|e0]; [discriminate|].
  destruct e0; intros H; injection H as <-;
    solve [ left; eexists; reflexivity
          | right; repeat split; try discriminate; intros; discriminate ].
Qed.

Lemma format_text_raises_inv (self : formatter) (keys : list Key) :
  forall i text e,
    format_text linesep self i keys text = Raise e ->
    exists k, In k keys /\ _get_header self k = Raise e.
Proof.
  induction keys as [|k keys IH]; intros i text e; [discriminate|].
  cbn [format_text].
  destruct (_get_header self k) as [hdr|e0] eqn:Hk; cbn [bind].
  - intros H. destruct (IH _ _ _ H) as [k' [Hin Hk']].
    exists k'. split; [now right | exact Hk'].
  - intros H. injection H as <-. exists k. split; [now left | exact Hk].
Qed.

Lemma format_json_raises_inv (self : formatter) (keys : list Key) :
  forall js e,
    format_json self keys js = Raise e ->
    exists k, In k keys /\ _get_header self k = Raise e.
Proof.
  induction keys as [|k keys IH]; intros js e; [discriminate|].
  cbn [format_json].
  destruct (_get_header self k) as [hdr|e0] eqn:Hk; cbn [bind].
  - intros H. destruct (IH _ _ H) as [k' [Hin Hk']].
    exists k'. split; [now right | exact Hk'].
  - intros H. injection H as <-. exists k. split; [now left | exact Hk].
Qed.

Lemma format_hdulist_raises_inv (self : formatter) (keys : list Key) (e : exn) :
  _format_hdulist linesep self keys = Raise e ->
  (exists k, In k keys /\ _get_header self k = Raise e) \/
  (cls self = JSONHeaderFormatter /\ e = TypeError).
Proof.
  unfold _format_hdulist. destruct (cls self).
  - intros H. left. exact (format_text_raises_inv _ _ _ _ _ H).
  - match goal with
    | |- context [format_json self keys ?js] =>
        destruct (format_json self keys js) as [js'|e0] eqn:Hjs
    end; cbn [bind].
    + intros H. right. split; [reflexivity|].
      exact (encode_raises 2 _ 0 e H).
    + intros H. injection H as <-. left.
      exact (format_json_raises_inv _ _ _ _ Hjs).
Qed.

Lemma hdukeys_raises (self : formatter) (extension : option string) (e : exn) :
  hdukeys self extension = Raise e -> e = ValueError.
Proof.
  destruct extension as [s|]; [|discriminate]. unfold hdukeys.
  destruct (Py.int s); [discriminate|].
  destruct (1 <? List.length (Py.split Py.comma s))%nat; [|discriminate].
  destruct (Py.int (Py.last_part (Py.split Py.comma s))); [discriminate|].
  intros H. now injection H as <-.
Qed.

(** X4: an error that leaves [parse] is the [ValueError] of a version
    that does not read as an integer, the script's own error for a
    lookup the decoder refused, the encoder's [TypeError] (JSON only), or
    an error of the decoder other than an index or key failure, passed on
    as it is; an [IndexError] or a [KeyError] never leaves [parse]. *)
Theorem parse_raises (self : formatter) (extension : option string) (e : exn) :
  parse linesep self extension = Raise e ->
  (e = ValueError \/
   (exists m, e = FormattingException m) \/
   (cls self = JSONHeaderFormatter /\ e = TypeError) \/
   (exists k, getitem (hdulist self) k = Raise e)) /\
  e <> IndexError /\
  (forall m, e <> KeyError m).
Proof.
  unfold parse.
  destruct (hdukeys self extension) as [keys|e0] eqn:Hkeys; cbn [bind].
  - intros H. apply format_hdulist_raises_inv in H.
    destruct H as [[k [_ Hk]] | [Hcls ->]].
    + apply get_header_raises in Hk.
      destruct Hk as [[m ->] | [Hget [Hidx Hkey]]].
      * split; [right; left; now exists m|].
        split; [discriminate | intros; discriminate].
      * split; [right; right; right; now exists k|]. now split.
    + split; [right; right; left; now split|].
      split; [discriminate | intros; discriminate].
  - intros H. injection H as <-.
    apply hdukeys_raises in Hkeys. subst e0.
    split; [now left|]. split; [discriminate | intros; discriminate].
Qed.

End ParseErrors.

(** ** The outcome of the formatters *)

Section FormatterOutcome.

Variable linesep : string.
Variable self : formatter.

Lemma format_json_raises (before : list Key) (hdrs : list Header) (k : Key)
    (after : list Key) (e : exn) :
  resolved self before hdrs ->
  _get_header self k = Raise e ->
  forall js, format_json self (before ++ k :: after)%list js = Raise e.
Proof.
  intros Hres Hk.
  induction Hres as [|k' h keys hdrs Hk' Hrest IH]; intros js;
    cbn [app format_json].
  - now rewrite Hk.
  - rewrite Hk'. cbn [bind]. apply IH.
Qed.

(** The keys of a list all resolve, or there is a first one that does
    not. *)
Lemma resolved_or_first_error (keys : list Key) :
  (exists hdrs, resolved self keys hdrs) \/
  (exists before hdrs k after e,
      keys = (before ++ k :: after)%list /\
      resolved self before hdrs /\
      _get_header self k = Raise e).
Proof.
  induction keys as [|k keys IH].
  - left. exists []. constructor.
  - destruct (_get_header self k) as [h|e] eqn:Hk.
    + destruct IH as [[hdrs Hres] | [before [hdrs [k' [after [e [-> [Hres Hk']]]]]]]].
      * left. exists (h :: hdrs). now constructor.
      * right. exists (k :: before), (h :: hdrs), k', after, e.
        split; [reflexivity|]. split; [now constructor | exact Hk'].
    + right. exists [], [], k, keys, e.
      split; [reflexivity|]. split; [constructor | exact Hk].
Qed.

(** X5: both formatters are all or nothing: when a key does not resolve,
    the formatter raises the error of the first such key and gives no
    text, whatever the keys before it and after it are. *)
Theorem format_hdulist_first_error (before : list Key) (hdrs : list Header)
    (k : Key) (after : list Key) (e : exn) :
  resolved self before hdrs ->
  _get_header self k = Raise e ->
  _format_hdulist linesep self (before ++ k :: after)%list = Raise e.
Proof.
  intros Hres Hk. destruct (cls self) eqn:Hcls.
  - now apply format_text_raises with (hdrs := hdrs).
  - unfold _format_hdulist. rewrite Hcls.
    now rewrite (format_json_raises before hdrs k after e Hres Hk).
Qed.

Lemma format_text_ok_resolved (keys : list Key) (text : string) :
  cls self = HeaderFormatter ->
  _format_hdulist linesep self keys = Ok text ->
  exists hdrs, resolved self keys hdrs.
Proof.
  intros Hcls Htext.
  destruct (resolved_or_first_error keys)
    as [Hres | [before [hdrs [k [after [e [-> [Hres Hk]]]]]]]];
    [exact Hres|].
  rewrite (format_text_raises linesep self before hdrs k after e Hcls Hres Hk)
    in Htext.
  discriminate.
Qed.

(** X6: the text formatter fails only through a key: it gives a text
    exactly when every key resolves. *)
Theorem format_text_succeeds_iff (keys : list Key) :
  cls self = HeaderFormatter ->
  ((exists text, _format_hdulist linesep self keys = Ok text) <->
   (exists hdrs, resolved self keys hdrs)).
Proof.
  intros Hcls. split.
  - intros [text Htext]. exact (format_text_ok_resolved keys text Hcls Htext).
  - intros [hdrs Hres]. unfold _format_hdulist. rewrite Hcls.
    destruct Hres as [|k h keys hdrs Hk Hrest]; [now exists ""|].
    eexists. apply (format_text_first linesep self k h keys hdrs).
    unfold resolved. now constructor.
Qed.

Lemma concat_app (sep : string) (l1 l2 : list string) :
  l1 <> [] -> l2 <> [] ->
  String.concat sep (l1 ++ l2)%list
  = String.concat sep l1 ++ sep ++ String.concat sep l2.
Proof.
  intros H1 H2. induction l1 as [|a l1 IH]; [contradiction|].
  destruct l1 as [|b l1].
  - destruct l2 as [|c l2]; [contradiction | reflexivity].
  - change (String.concat sep ((a :: b :: l1) ++ l2)%list)
      with (a ++ sep ++ String.concat sep ((b :: l1) ++ l2)%list).
    rewrite IH by discriminate.
    change (String.concat sep (a :: b :: l1))
      with (a ++ sep ++ String.concat sep (b :: l1)).
    now rewrite !append_assoc.
Qed.

Lemma combine_append {A B : Type} (l1 l2 : list A) (m1 m2 : list B) :
  List.length l1 = List.length m1 ->
  combine (l1 ++ l2) (m1 ++ m2) = (combine l1 m1 ++ combine l2 m2)%list.
Proof.
  revert m1. induction l1 as [|a l1 IH]; intros [|b m1] Hlen;
    try discriminate; [reflexivity|].
  simpl. f_equal. apply IH. now injection Hlen.
Qed.

Lemma format_text_closed (keys : list Key) (hdrs : list Header) :
  resolved self keys hdrs ->
  format_text linesep self 0 keys ""
  = Ok (String.concat (linesep ++ linesep)
          (map (block linesep self) (combine keys hdrs))).
Proof.
  intros Hres. destruct Hres as [|k h keys hdrs Hk Hrest]; [reflexivity|].
  rewrite (format_text_first linesep self k h keys hdrs)
    by (unfold resolved; now constructor).
  cbn [combine map]. now rewrite concat_cons, map_map.
Qed.

(** X7: the text of two lists of keys one after the other is the text of
    the first, an empty line, and the text of the second. *)
Theorem format_text_app (keys1 keys2 : list Key) (text1 text2 : string) :
  cls self = HeaderFormatter ->
  keys1 <> [] -> keys2 <> [] ->
  _format_hdulist linesep self keys1 = Ok text1 ->
  _format_hdulist linesep self keys2 = Ok text2 ->
  _format_hdulist linesep self (keys1 ++ keys2)%list
  = Ok (text1 ++ (linesep ++ linesep) ++ text2).
Proof.
  intros Hcls Hne1 Hne2 H1 H2.
  destruct (format_text_ok_resolved keys1 text1 Hcls H1) as [hdrs1 Hres1].
  destruct (format_text_ok_resolved keys2 text2 Hcls H2) as [hdrs2 Hres2].
  unfold _format_hdulist in *. rewrite Hcls in *.
  rewrite (format_text_closed _ _ Hres1) in H1. injection H1 as <-.
  rewrite (format_text_closed _ _ Hres2) in H2. injection H2 as <-.
  assert (resolved self (keys1 ++ keys2) (hdrs1 ++ hdrs2)) as Hres
    by (now apply Forall2_app).
  rewrite (format_text_closed _ _ Hres). f_equal.
  rewrite combine_append by (eapply Forall2_length; exact Hres1).
  rewrite map_app. apply concat_app.
  - destruct Hres1; [contradiction | discriminate].
  - destruct Hres2; [contradiction | discriminate].
Qed.

End FormatterOutcome.

(** ** When the JSON formatter gives a text *)

Section JsonOutcome.

Variable linesep : string.

Lemma encode_list_items (indent level : nat) (items : list obj) (text : string) :
  encode indent level (PList items) = Ok text ->
  forall x, In x items -> exists c, encode indent (S level) x = Ok c.
Proof.
  intros Henc.
  assert (exists chunks,
            (fix each (l : list obj) : result (list string) :=
               match l with
               | [] => Ok []
               | x :: r =>
                   c <- encode indent (S level) x ;;
                   cs <- each r ;;
                   Ok (c :: cs)
               end) items = Ok chunks) as [chunks Heach].
  { destruct items as [|x0 items0]; [now exists []|].
    cbn [encode] in Henc.
    match type of Henc with
    | context [bind ?m _] => destruct m as [cs|e1] eqn:Hr
    end; [now exists cs | discriminate]. }
  clear Henc. revert chunks Heach.
  induction items as [|y r IH]; intros chunks Heach x Hin; [contradiction|].
  destruct (encode indent (S level) y) as [c|e0] eqn:Hy; cbn [bind] in Heach;
    [|discriminate].
  match type of Heach with
  | context [bind ?m _] => destruct m as [cs|e1] eqn:Hr
  end; [|discriminate].
  destruct Hin as [<-|Hin]; [now exists c | exact (IH cs eq_refl x Hin)].
Qed.

Lemma encode_dict_items (indent level : nat) (items : list (string * obj))
    (text : string) :
  encode indent level (PDict items) = Ok text ->
  forall k v, In (k, v) items -> exists c, encode indent (S level) v = Ok c.
Proof.
  intros Henc.
  assert (exists chunks,
            (fix each (l : list (string * obj)) : result (list string) :=
               match l with
               | [] => Ok []
               | (k, v) :: r =>
                   c <- encode indent (S level) v ;;
                   cs <- each r ;;
                   Ok ((encode_basestring k ++ key_separator ++ c) :: cs)
               end) items = Ok chunks) as [chunks Heach].
  { destruct items as [|x0 items0]; [now exists []|].
    cbn [encode] in Henc.
    match type of Henc with
    | context [bind ?m _] => destruct m as [cs|e1] eqn:Hr
    end; [now exists cs | discriminate]. }
  clear Henc. revert chunks Heach.
  induction items as [|[k0 v0] r IH]; intros chunks Heach k v Hin;
    [contradiction|].
  destruct (encode indent (S level) v0) as [c|e0] eqn:Hy; cbn [bind] in Heach;
    [|discriminate].
  match type of Heach with
  | context [bind ?m _] => destruct m as [cs|e1] eqn:Hr
  end; [|discriminate].
  destruct Hin as [Heq|Hin];
    [injection Heq as <- <-; now exists c | exact (IH cs eq_refl k v Hin)].
Qed.

Lemma Forall2_of_exists {A B : Type} (R : A -> B -> Prop) (l : list A) :
  (forall x, In x l -> exists y, R x y) -> exists m, Forall2 R l m.
Proof.
  induction l as [|a l IH]; intros H.
  - exists []. constructor.
  - destruct (H a (or_introl eq_refl)) as [b Hb].
    destruct IH as [m Hm]; [intros x Hx; apply H; now right|].
    exists (b :: m). now constructor.
Qed.

Lemma encode_list_total (indent level : nat) (items : list obj) :
  (forall x, In x items -> exists c, encode indent (S level) x = Ok c) ->
  exists text, encode indent level (PList items) = Ok text.
Proof.
  intros H. destruct items as [|x items]; [now exists "[]"|].
  destruct (Forall2_of_exists _ _ H) as [chunks Hall].
  eexists. apply (encode_list_layout indent level _ chunks); [discriminate|].
  exact Hall.
Qed.

Lemma encode_dict_total (indent level : nat) (items : list (string * obj)) :
  (forall k v, In (k, v) items -> exists c, encode indent (S level) v = Ok c) ->
  exists text, encode indent level (PDict items) = Ok text.
Proof.
  intros H. destruct items as [|x items]; [now exists "{}"|].
  destruct (Forall2_of_exists
              (fun kv c => encode indent (S level) (snd kv) = Ok c)
              (x :: items)) as [chunks Hall].
  { intros [k v] Hin. exact (H k v Hin). }
  eexists. apply (encode_dict_layout indent level _ chunks); [discriminate|].
  exact Hall.
Qed.

Lemma setitem_In {V : Type} (k : string) (v : V) (d : list (string * V))
    (kv : string * V) :
  In kv (setitem k v d) -> kv = (k, v) \/ In kv d.
Proof.
  induction d as [|[k' v'] d IH]; simpl.
  - intros [<-|[]]. now left.
  - destruct (String.eqb k k'); simpl.
    + intros [<-|H]; [now left | right; now right].
    + intros [<-|H]; [right; now left|].
      destruct (IH H); [now left | right; now right].
Qed.

(** An entry of [OrderedDict(pairs)] is one of the pairs. *)
Lemma odict_In {V : Type} (pairs : list (string * V)) (kv : string * V) :
  In kv (odict pairs) -> In kv pairs.
Proof.
  unfold odict.
  assert (forall d, In kv (fold_left (fun d kv => setitem (fst kv) (snd kv) d)
                             pairs d) -> In kv d \/ In kv pairs) as H.
  { induction pairs as [|[k v] pairs IH]; intros d; simpl; [now left|].
    intros Hin. destruct (IH _ Hin) as [Hd|Hp]; [|right; now right].
    destruct (setitem_In _ _ _ _ Hd) as [->|Hd']; [right; now left | now left]. }
  intros Hin. destruct (H [] Hin) as [[]|Hp]. exact Hp.
Qed.

Lemma lookup_In {V : Type} (k : string) (v : V) (d : list (string * V)) :
  lookup k d = Some v -> In (k, v) d.
Proof.
  induction d as [|[k' v'] d IH]; simpl; [discriminate|].
  destruct (String.eqb_spec k k') as [->|Hne].
  - intros H. injection H as <-. now left.
  - intros H. right. now apply IH.
Qed.

Lemma In_lookup {V : Type} (k : string) (v : V) (d : list (string * V)) :
  NoDup (map fst d) -> In (k, v) d -> lookup k d = Some v.
Proof.
  induction d as [|[k' v'] d IH]; simpl; [contradiction|].
  intros Hnd [Heq|Hin].
  - injection Heq as -> ->. now rewrite String.eqb_refl.
  - inversion Hnd as [|? ? Hk' Hnd']; subst.
    destruct (String.eqb_spec k k') as [->|Hne]; [|now apply IH].
    elim Hk'. change k' with (fst (k', v)). now apply in_map.
Qed.

Lemma encode_value (indent level : nat) (v : Value) :
  v <> VOther -> exists c, encode indent level (of_value v) = Ok c.
Proof.
  destruct v as [s|[|]|n|t|]; intros H; try (eexists; reflexivity).
  now elim H.
Qed.

Lemma encode_key (indent level : nat) (k : Key) :
  exists c, encode indent level (of_key k) = Ok c.
Proof. destruct k; eexists; reflexivity. Qed.

Lemma resolved_In_hdrs (self : formatter) (keys : list Key)
    (hdrs : list Header) :
  resolved self keys hdrs ->
  (forall h, In h hdrs -> exists k, In (k, h) (combine keys hdrs)) /\
  (forall k h, In (k, h) (combine keys hdrs) -> In h hdrs) /\
  (forall k, In k keys -> exists h, _get_header self k = Ok h).
Proof.
  induction 1 as [|k0 h0 keys hdrs Hk Hrest [IH1 [IH2 IH3]]].
  - repeat split; intros; contradiction.
  - split; [|split].
    + intros h [<-|Hin]; [exists k0; now left|].
      destruct (IH1 h Hin) as [k Hk']. exists k. now right.
    + intros k h [Heq|Hin]; [injection Heq as <- <-; now left|].
      right. exact (IH2 k h Hin).
    + intros k [<-|Hin]; [now exists h0 | exact (IH3 k Hin)].
Qed.

Lemma cards_dict_NoDup (h : Header) : NoDup (map fst (cards_dict h)).
Proof. unfold cards_dict. rewrite odict_keys. apply uniq_NoDup. Qed.

Lemma cards_dict_values (h : Header) (k : string) (o : obj) :
  In (k, o) (cards_dict h) -> exists v, In (k, v) (cards h) /\ o = of_value v.
Proof.
  intros Hin. apply odict_In in Hin. unfold json_cards in Hin.
  apply in_map_iff in Hin. destruct Hin as [[k' v] [Heq Hin]].
  injection Heq as <- <-. now exists v.
Qed.

(** X8: with keys that all resolve, the JSON formatter gives a text
    exactly when no [cards] dictionary holds a value the encoder rejects;
    a keyword whose last card has such a value makes it raise the
    encoder's [TypeError]. *)
Theorem format_json_succeeds_iff (self : formatter) (keys : list Key)
    (hdrs : list Header) :
  cls self = JSONHeaderFormatter ->
  resolved self keys hdrs ->
  ((exists text, _format_hdulist linesep self keys = Ok text) <->
   (forall h, In h hdrs ->
      forall k, lookup k (cards_dict h) <> Some PUnsupported)) /\
  (forall h before k after,
     In h hdrs ->
     cards h = (before ++ (k, VOther) :: after)%list ->
     ~ In k (map fst after) ->
     _format_hdulist linesep self keys = Raise TypeError).
Proof.
  intros Hcls Hres.
  pose proof (format_json_document linesep self keys hdrs Hcls Hres) as Hdoc.
  destruct (resolved_In_hdrs self keys hdrs Hres) as [Hh [Hkh Hks]].
  assert ((exists text, _format_hdulist linesep self keys = Ok text) ->
          forall h, In h hdrs ->
            forall k, lookup k (cards_dict h) <> Some PUnsupported) as Hfwd.
  { intros [text Htext] h Hin k Hlook.
    rewrite Hdoc in Htext. unfold dumps, json_document in Htext.
    destruct (encode_dict_items _ _ _ _ Htext "hdulist" _
                (or_intror (or_introl eq_refl))) as [c1 H1].
    destruct (Hh h Hin) as [k0 Hk0].
    destruct (encode_list_items _ _ _ _ H1 (json_unit (k0, h))
                (in_map json_unit _ _ Hk0)) as [c2 H2].
    unfold json_unit in H2. cbn [fst snd] in H2.
    destruct (encode_dict_items _ _ _ _ H2 "cards" _
                (or_intror (or_introl eq_refl))) as [c3 H3].
    destruct (encode_dict_items _ _ _ _ H3 k PUnsupported (lookup_In _ _ _ Hlook))
      as [c4 H4].
    discriminate H4. }
  split; [split; [exact Hfwd|]|].
  - intros Hsup. rewrite Hdoc. unfold dumps, json_document.
    apply encode_dict_total. intros k v [Heq|[Heq|[]]]; injection Heq as <- <-.
    + eexists. reflexivity.
    + apply encode_list_total. intros u Hu.
      apply in_map_iff in Hu. destruct Hu as [[k0 h] [<- Hin]].
      unfold json_unit. cbn [fst snd].
      apply encode_dict_total. intros k v [Heq|[Heq|[]]]; injection Heq as <- <-.
      * apply encode_key.
      * apply encode_dict_total. intros k o Hko.
        destruct (cards_dict_values h k o Hko) as [v [_ ->]].
        apply encode_value. intros ->.
        apply (Hsup h (Hkh k0 h Hin) k).
        exact (In_lookup _ _ _ (cards_dict_NoDup h) Hko).
  - intros h before k after Hin Hcards Hlast.
    destruct (_format_hdulist linesep self keys) as [text|e] eqn:Hfmt.
    + elim (Hfwd (ex_intro _ text eq_refl) h Hin k).
      unfold cards_dict. rewrite odict_lookup. unfold json_cards.
      rewrite Hcards, map_app. cbn [map fst snd of_value].
      apply lookup_last_pair. now rewrite map_map.
    + f_equal.
      destruct (format_hdulist_raises_inv linesep self keys e Hfmt)
        as [[k' [Hin' Hk']] | [_ He]]; [|exact He].
      destruct (Hks k' Hin') as [h' Hok]. congruence.
Qed.

End JsonOutcome.

(** ** Every run of [main] *)

Section Runs.

Local Open Scope list_scope.

Variable linesep : string.
Variable fits_open : string -> result HDUList.
Variable args : Args.

Lemma main_loop_raises (name : string) (rest : list string) (e : exn)
    (t : list event) :
  process_raises linesep fits_open args name e ->
  exists added,
    main_loop linesep fits_open args (name :: rest) t = (t ++ added, Raise e) /\
    stdout added = [] /\ errors added = [].
Proof.
  intros [[e0 [Hopen ->]] | [h [Hopen Hparse]]]; cbn [main_loop].
  - exists []. rewrite app_nil_r. split; [|split; reflexivity].
    unfold io_bind at 1. unfold init. rewrite Hopen.
    destruct e0; reflexivity.
  - exists [EvOpen name]. split; [|split; reflexivity].
    unfold io_bind at 1. unfold init. rewrite Hopen.
    unfold io_bind at 1. unfold emit at 1. unfold io_ret.
    unfold io_bind at 1. unfold lift.
    fold (class_of args). now rewrite Hparse.
Qed.

Lemma process_outcome (name : string) :
  (exists text, prints linesep fits_open args name text) \/
  (exists e, process_raises linesep fits_open args name e).
Proof.
  destruct (fits_open name) as [h|e0] eqn:Hopen.
  - destruct (parse linesep {| cls := class_of args; hdulist := h |} (ext args))
      as [text|e] eqn:Hparse.
    + left. exists text, h. now split.
    + right. exists e. right. exists h. now split.
  - right. exists (init_error e0). left. now exists e0.
Qed.

(** The files all print, or there is a first one whose processing
    raises. *)
Lemma prints_or_first_error (names : list string) :
  (exists texts, Forall2 (prints linesep fits_open args) names texts) \/
  (exists before texts bad after e,
      names = before ++ bad :: after /\
      Forall2 (prints linesep fits_open args) before texts /\
      process_raises linesep fits_open args bad e).
Proof.
  induction names as [|name names IH].
  - left. exists []. constructor.
  - destruct (process_outcome name) as [[text Hp] | [e He]].
    + destruct IH as [[texts Hall] | [before [texts [bad [after [e [-> [Hall He]]]]]]]].
      * left. exists (text :: texts). now constructor.
      * right. exists (name :: before), (text :: texts), bad, after, e.
        split; [reflexivity|]. split; [now constructor | exact He].
    + right. exists [], [], name, names, e.
      split; [reflexivity|]. split; [constructor | exact He].
Qed.

Lemma main_raises (before texts : list string) (bad : string)
    (after : list string) (e : exn) (t : list event) :
  filenames args = before ++ bad :: after ->
  Forall2 (prints linesep fits_open args) before texts ->
  process_raises linesep fits_open args bad e ->
  exists added,
    main_loop linesep fits_open args (filenames args) t = (t ++ added, Raise e) /\
    stdout added = texts /\ errors added = [].
Proof.
  intros Hnames Hbefore Hbad.
  rewrite Hnames, (main_loop_all_print _ _ _ _ _ _ Hbefore).
  destruct (main_loop_raises bad after e (t ++ effects_of before texts) Hbad)
    as [added [-> [Hout Herr]]].
  exists (effects_of before texts ++ added). split; [|split].
  - now rewrite app_assoc.
  - rewrite stdout_app, Hout, app_nil_r.
    apply effects_of_stdout. exact (prints_length _ _ _ _ _ Hbefore).
  - now rewrite errors_app, Herr, effects_of_errors.
Qed.

(** X9: whatever the command line and the files, [main] logs at most one
    error, never lets the script's own error escape, and returns normally
    whenever it has logged. *)
Theorem main_logs_at_most_once (t : list event) :
  exists added r,
    main linesep fits_open args t = (t ++ added, r) /\
    List.length (errors added) <= 1 /\
    (forall m, r <> Raise (FormattingException m)) /\
    (errors added <> [] -> r = Ok tt).
Proof.
  unfold main.
  destruct (prints_or_first_error (filenames args))
    as [[texts Hall] | [before [texts [bad [after [e [Hn [Hall He]]]]]]]].
  - pose proof (main_loop_all_print linesep fits_open args _ _ [] Hall t) as H.
    rewrite app_nil_r in H. rewrite H. cbn [main_loop io_ret].
    exists (effects_of (filenames args) texts), (Ok tt).
    rewrite effects_of_errors. repeat split; auto; discriminate.
  - destruct (main_raises before texts bad after e t Hn Hall He)
      as [added [-> [_ Herr]]].
    destruct e as [m| | | | | |];
      try (eexists added, _; rewrite Herr;
           repeat split; simpl; auto; try discriminate; intros; now elim H).
    exists (added ++ [EvLogError m]), (Ok tt).
    unfold emit. rewrite app_assoc, errors_app, Herr.
    repeat split; simpl; auto; discriminate.
Qed.

(** X10: what [main] prints is always the texts of an initial part of
    the files of the command line, in their order; when it returns
    normally without having logged, that part is the whole command line. *)
Theorem main_prints_prefix (t : list event) :
  exists n texts added r,
    main linesep fits_open args t = (t ++ added, r) /\
    Forall2 (prints linesep fits_open args) (firstn n (filenames args)) texts /\
    stdout added = texts /\
    (r = Ok tt -> errors added = [] -> n = List.length (filenames args)).
Proof.
  unfold main.
  destruct (prints_or_first_error (filenames args))
    as [[texts Hall] | [before [texts [bad [after [e [Hn [Hall He]]]]]]]].
  - pose proof (main_loop_all_print linesep fits_open args _ _ [] Hall t) as H.
    rewrite app_nil_r in H. rewrite H. cbn [main_loop io_ret].
    exists (List.length (filenames args)), texts,
      (effects_of (filenames args) texts), (Ok tt).
    rewrite firstn_all. repeat split; auto.
    apply effects_of_stdout. exact (prints_length _ _ _ _ _ Hall).
  - destruct (main_raises before texts bad after e t Hn Hall He)
      as [added [-> [Hout Herr]]].
    assert (firstn (List.length before) (filenames args) = before) as Hfirst.
    { rewrite Hn, firstn_app, Nat.sub_diag, firstn_all. simpl.
      now rewrite app_nil_r. }
    destruct e as [m| | | | | |];
      try (exists (List.length before), texts, added; eexists;
           rewrite Hfirst; repeat split; auto; discriminate).
    exists (List.length before), texts, (added ++ [EvLogError m]), (Ok tt).
    unfold emit. rewrite app_assoc, Hfirst, stdout_app, errors_app, Hout, Herr.
    simpl. rewrite app_nil_r. repeat split; auto. discriminate.
Qed.

(** X11: an error of a file other than the script's own (the
    [ValueError] of a malformed version, the encoder's [TypeError], an
    error of the decoder) ends [main] with that error, after the texts of
    the files before it have been printed and without anything logged. *)
Theorem main_propagates_other_errors (before texts : list string)
    (bad : string) (after : list string) (e : exn) (t : list event) :
  filenames args = before ++ bad :: after ->
  Forall2 (prints linesep fits_open args) before texts ->
  process_raises linesep fits_open args bad e ->
  (forall m, e <> FormattingException m) ->
  exists added,
    main linesep fits_open args t = (t ++ added, Raise e) /\
    stdout added = texts /\
    errors added = [].
Proof.
  intros Hn Hall He Hother. unfold main.
  destruct (main_raises before texts bad after e t Hn Hall He)
    as [added [-> [Hout Herr]]].
  exists added. split; [|now split].
  destruct e; try reflexivity. now elim (Hother message).
Qed.

End Runs.

(** ** Display of a whole container *)

Section WholeContainer.

Variable linesep : string.
Variable self : formatter.

Lemma combine_map_seq {A B : Type} (f : nat -> A) (g : nat -> B) (l : list nat) :
  combine (map f l) (map g l) = map (fun i => (f i, g i)) l.
Proof. induction l as [|i l IH]; simpl; [reflexivity | now rewrite IH]. Qed.

Lemma resolved_indices (units : nat -> HDU) (l : list nat) :
  (forall i, In i l ->
             getitem (hdulist self) (KInt (Z.of_nat i)) = Ok (units i)) ->
  resolved self (map (fun i => KInt (Z.of_nat i)) l)
    (map (fun i => header (units i)) l).
Proof.
  unfold resolved. induction l as [|i l IH]; intros H; simpl; constructor.
  - apply get_header_found. apply H. now left.
  - apply IH. intros j Hj. apply H. now right.
Qed.

(** X12: without an extension, over a container whose decoder resolves
    every index below its length, [parse] does not fail on a lookup and
    shows every unit once, in the order of the container: the text is the
    blocks of the units 0, 1, ..., and the JSON document lists them under
    [hdulist]. *)
Theorem parse_all_units (units : nat -> HDU) :
  (forall i, i < len (hdulist self) ->
             getitem (hdulist self) (KInt (Z.of_nat i)) = Ok (units i)) ->
  (cls self = HeaderFormatter ->
   parse linesep self None
   = Ok (String.concat (linesep ++ linesep)
           (map (fun i => block linesep self
                            (KInt (Z.of_nat i), header (units i)))
              (seq 0 (len (hdulist self)))))) /\
  (cls self = JSONHeaderFormatter ->
   parse linesep self None
   = dumps (PDict [("filename", PStr (filename (hdulist self)));
                   ("hdulist",
                    PList (map (fun i => json_unit
                                           (KInt (Z.of_nat i), header (units i)))
                             (seq 0 (len (hdulist self)))))]) 2).
Proof.
  intros Hget.
  assert (resolved self
            (map (fun i => KInt (Z.of_nat i)) (seq 0 (len (hdulist self))))
            (map (fun i => header (units i)) (seq 0 (len (hdulist self)))))
    as Hres.
  { apply resolved_indices. intros i Hi. apply Hget.
    apply in_seq in Hi. lia. }
  split; intros Hcls; unfold parse; cbn [hdukeys bind].
  - unfold _format_hdulist. rewrite Hcls.
    rewrite (format_text_closed linesep self _ _ Hres).
    now rewrite combine_map_seq, map_map.
  - rewrite (format_json_document linesep self _ _ Hcls Hres).
    unfold json_document. now rewrite combine_map_seq, map_map.
Qed.

End WholeContainer.

(** ** The further properties on sample data *)

Lemma hdukeys_inversion_witness :
  hdukeys Sample.text_one (Some "A,B,2") = Ok [KPair "A,B" 2] /\
  exists k,
    [KPair "A,B" 2] = [k] /\
    match k with
    | KInt n => Py.int "A,B,2" = Some n
    | KName name =>
        name = "A,B,2" /\ Py.int "A,B,2" = None /\
        Py.contains_char Py.comma "A,B,2" = false
    | KPair name ver =>
        Py.int "A,B,2" = None /\
        "A,B,2" = name ++ "," ++ Py.last_part (Py.split Py.comma "A,B,2") /\
        Py.contains_char Py.comma
          (Py.last_part (Py.split Py.comma "A,B,2")) = false /\
        Py.int (Py.last_part (Py.split Py.comma "A,B,2")) = Some ver
    end.
Proof.
  split; [reflexivity|].
  exact (hdukeys_inversion Sample.text_one "A,B,2" _ eq_refl).
Defined.

Lemma parse_raises_witness :
  parse Sample.LF Sample.text_one (Some "2")
  = Raise (FormattingException "one.fits: Extension #2 not found.") /\
  FormattingException "one.fits: Extension #2 not found." <> IndexError.
Proof.
  split; [reflexivity|].
  exact (proj1 (proj2 (parse_raises Sample.LF Sample.text_one (Some "2") _
                         eq_refl))).
Defined.

Lemma format_hdulist_first_error_witness :
  resolved Sample.json_one [KInt 0] [Decoder.hdr Sample.primary] /\
  _get_header Sample.json_one (KName "DQ")
  = Raise (FormattingException "one.fits: Extension DQ not found.") /\
  _format_hdulist Sample.LF Sample.json_one [KInt 0; KName "DQ"; KInt 1]
  = Raise (FormattingException "one.fits: Extension DQ not found.").
Proof.
  assert (resolved Sample.json_one [KInt 0] [Decoder.hdr Sample.primary]) as H
    by (unfold resolved; repeat constructor).
  split; [exact H|]. split; [reflexivity|].
  exact (format_hdulist_first_error Sample.LF Sample.json_one
           [KInt 0] _ (KName "DQ") [KInt 1] _ H eq_refl).
Defined.

Lemma format_text_succeeds_iff_witness :
  exists hdrs, resolved Sample.text_one [KInt 0; KPair "SCI" 2] hdrs.
Proof.
  apply (proj1 (format_text_succeeds_iff Sample.LF Sample.text_one
                  [KInt 0; KPair "SCI" 2] eq_refl)).
  eexists. reflexivity.
Defined.

Lemma format_text_app_witness :
  exists text1 text2,
    _format_hdulist Sample.LF Sample.text_one [KInt 0] = Ok text1 /\
    _format_hdulist Sample.LF Sample.text_one [KInt 1] = Ok text2 /\
    _format_hdulist Sample.LF Sample.text_one [KInt 0; KInt 1]
    = Ok (text1 ++ (Sample.LF ++ Sample.LF) ++ text2).
Proof.
  eexists. eexists. split; [reflexivity|]. split; [reflexivity|].
  apply (format_text_app Sample.LF Sample.text_one [KInt 0] [KInt 1]);
    [reflexivity | discriminate | discriminate | reflexivity | reflexivity].
Defined.

Lemma format_json_succeeds_iff_witness :
  resolved Sample.json_one [KInt 0; KInt 1]
    [Decoder.hdr Sample.primary; Decoder.hdr Sample.sci] /\
  (exists text,
     _format_hdulist Sample.LF Sample.json_one [KInt 0; KInt 1] = Ok text) /\
  forall k, lookup k (cards_dict (Decoder.hdr Sample.sci)) <> Some PUnsupported.
Proof.
  assert (resolved Sample.json_one [KInt 0; KInt 1]
            [Decoder.hdr Sample.primary; Decoder.hdr Sample.sci]) as H
    by (unfold resolved; repeat constructor).
  assert (exists text,
            _format_hdulist Sample.LF Sample.json_one [KInt 0; KInt 1] = Ok text)
    as Hok by (eexists; reflexivity).
  split; [exact H|]. split; [exact Hok|].
  exact (proj1 (proj1 (format_json_succeeds_iff Sample.LF Sample.json_one
                         _ _ eq_refl H)) Hok
           (Decoder.hdr Sample.sci) (or_intror (or_introl eq_refl))).
Defined.

Lemma main_propagates_other_errors_witness :
  exists text added,
    prints Sample.LF Sample.disk
      (Sample.args (Some "SCI,2") false ["one.fits"; "bad.fits"]) "one.fits" text /\
    main Sample.LF
      (fun name => if String.eqb name "bad.fits"
                   then Raise (OtherError "OSError") else Sample.disk name)
      (Sample.args (Some "SCI,2") false ["one.fits"; "bad.fits"]) []
    = (added, Raise (OtherError "OSError")) /\
    stdout added = [text] /\ errors added = [].
Proof.
  set (open := fun name => if String.eqb name "bad.fits"
                           then Raise (OtherError "OSError")
                           else Sample.disk name).
  set (a := Sample.args (Some "SCI,2") false ["one.fits"; "bad.fits"]).
  assert (exists text, prints Sample.LF open a "one.fits" text)
    as [text Hone] by (eexists; exists Sample.one; split; reflexivity).
  assert (process_raises Sample.LF open a "bad.fits" (OtherError "OSError"))
    as Hbad by (left; eexists; split; reflexivity).
  destruct (main_propagates_other_errors Sample.LF open a
              ["one.fits"] [text] "bad.fits" [] (OtherError "OSError") []
              eq_refl (Forall2_cons _ _ Hone (Forall2_nil _)) Hbad
              ltac:(discriminate))
    as [added [Hmain [Hout Herr]]].
  exists text, added. split; [|now repeat split].
  destruct Hone as [h [Ho Hp]]. exists h. split; [exact Ho | exact Hp].
Defined.

Lemma parse_all_units_witness :
  parse Sample.LF Sample.text_one None
  = Ok (String.concat (Sample.LF ++ Sample.LF)
          [block Sample.LF Sample.text_one (KInt 0, Decoder.hdr Sample.primary);
           block Sample.LF Sample.text_one (KInt 1, Decoder.hdr Sample.sci)]).
Proof.
  refine (proj1 (parse_all_units Sample.LF Sample.text_one
                   (fun i => {| header := Decoder.hdr
                                  (nth i [Sample.primary; Sample.sci]
                                     Sample.primary) |}) _) eq_refl).
  intros [|[|i]] Hi; [reflexivity | reflexivity | simpl in Hi; lia].
Defined.

(** ** The files [main] opens *)

Section Opened.

Local Open Scope list_scope.

Variable linesep : string.
Variable fits_open : string -> result HDUList.
Variable args : Args.

Lemma main_loop_raises_opened (name : string) (rest : list string) (e : exn)
    (t : list event) :
  process_raises linesep fits_open args name e ->
  exists added,
    main_loop linesep fits_open args (name :: rest) t = (t ++ added, Raise e) /\
    errors added = [] /\
    (forall e0, fits_open name = Raise e0 -> opened added = []) /\
    (forall h, fits_open name = Ok h -> opened added = [name]).
Proof.
  intros [[e0 [Hopen ->]] | [h [Hopen Hparse]]]; cbn [main_loop].
  - exists []. rewrite app_nil_r. split; [|split; [reflexivity|split]].
    + unfold io_bind at 1. unfold init. rewrite Hopen.
      destruct e0; reflexivity.
    + reflexivity.
    + intros h Hh. rewrite Hopen in Hh. discriminate.
  - exists [EvOpen name]. split; [|split; [reflexivity|split]].
    + unfold io_bind at 1. unfold init. rewrite Hopen.
      unfold io_bind at 1. unfold emit at 1. unfold io_ret.
      unfold io_bind at 1. unfold lift.
      fold (class_of args). now rewrite Hparse.
    + intros e0 He0. rewrite Hopen in He0. discriminate.
    + reflexivity.
Qed.

(** X13: when the processing of a file raises, no file after it is
    opened: the files [main] has opened are exactly the files before it,
    which all printed, followed by the file itself when it did open and
    its [parse] raised. *)
Theorem main_opens_nothing_after_error (before texts : list string)
    (bad : string) (after : list string) (e : exn) (t : list event) :
  filenames args = before ++ bad :: after ->
  Forall2 (prints linesep fits_open args) before texts ->
  process_raises linesep fits_open args bad e ->
  exists added r,
    main linesep fits_open args t = (t ++ added, r) /\
    (forall e0, fits_open bad = Raise e0 -> opened added = before) /\
    (forall h, fits_open bad = Ok h -> opened added = before ++ [bad]).
Proof.
  intros Hn Hall He. unfold main.
  rewrite Hn, (main_loop_all_print _ _ _ _ _ _ Hall).
  destruct (main_loop_raises_opened bad after e
              (t ++ effects_of before texts) He)
    as [added [-> [Herr [Hclosed Hopened]]]].
  pose proof (effects_of_opened before texts
                (prints_length _ _ _ _ _ Hall)) as Hbefore.
  assert ((forall e0, fits_open bad = Raise e0 ->
             opened (effects_of before texts ++ added) = before) /\
          (forall h, fits_open bad = Ok h ->
             opened (effects_of before texts ++ added) = before ++ [bad]))
    as [H0 H1].
  { split; intros x Hx; rewrite opened_app, Hbefore.
    - now rewrite (Hclosed x Hx), app_nil_r.
    - now rewrite (Hopened x Hx). }
  destruct e as [m| | | | | |];
    try (exists (effects_of before texts ++ added); eexists;
         split; [now rewrite app_assoc | split; assumption]).
  exists (effects_of before texts ++ added ++ [EvLogError m]), (Ok tt).
  split; [unfold emit; now rewrite <- !app_assoc|].
  split; intros x Hx; rewrite app_assoc, opened_app; simpl;
    rewrite app_nil_r; [exact (H0 x Hx) | exact (H1 x Hx)].
Qed.

End Opened.

Lemma main_opens_nothing_after_error_witness :
  Sample.disk "two.fits" = Raise (IOError "cannot open two.fits") /\
  exists added r,
    main Sample.LF Sample.disk (Sample.args None false Sample.three_files) []
    = (added, r) /\
    opened added = ["one.fits"].
Proof.
  split; [reflexivity|].
  set (a := Sample.args None false Sample.three_files).
  assert (exists text, prints Sample.LF Sample.disk a "one.fits" text)
    as [text Hone] by (eexists; exists Sample.one; split; reflexivity).
  assert (process_raises Sample.LF Sample.disk a "two.fits"
            (FormattingException "cannot open two.fits")) as Htwo
    by (left; eexists; split; reflexivity).
  destruct (main_opens_nothing_after_error Sample.LF Sample.disk a
              ["one.fits"] [text] "two.fits" ["three.fits"] _ [] eq_refl
              (Forall2_cons _ _ Hone (Forall2_nil _)) Htwo)
    as [added [r [Hmain [Hclosed _]]]].
  exists added, r. split; [exact Hmain|].
  exact (Hclosed _ eq_refl).
Defined.
